(** * comparacion_stock.py: key-based comparison of two stock tables

    A shallow embedding of [src/comparacion_stock.py] and of the pandas
    operations it calls, followed by the properties of the comparison that
    the design document states.

    The script reads two CSV files into data frames, checks the key columns
    and the column sets, joins the frames on the key columns and writes four
    tables: rows that coincide, rows that differ (with the names of the
    columns that differ), rows only in V2 and rows only in V1.  File reading
    and writing and the console summary are left out: [main] below starts
    from the two loaded frames and [args.keys] and returns the four frames
    handed to [to_csv]. *)

From Stdlib Require Import String Ascii ZArith QArith Bool Arith Lia DecimalString List Sorted.
Import ListNotations.
Close Scope Q_scope.
Open Scope string_scope.
Open Scope list_scope.

(** ** Cells *)

(** A cell of a frame produced by [pd.read_csv]: an integer (int64), a
    finite floating-point number (float64), a boolean, a text, or the
    missing-value marker NaN.  A floating-point cell is given by its value
    and by the text [str] prints for it: the script compares and prints
    numbers and never computes with them, and Python's printing of floats
    is not modelled.  Infinities are left out. *)
Inductive scalar : Type :=
| SInt (n : Z)
| SFloat (x : Q) (repr : string)
| SBool (b : bool)
| SStr (s : string)
| SNaN.

(** The float64 nearest to an integer, as an integer: 53 significant bits,
    ties to even.  NumPy converts an int64 this way before it compares it
    with a float64. *)
Definition to_float64 (n : Z) : Z :=
  (let a := Z.abs n in
   let k := Z.log2 a - 52 in
   if k <=? 0 then n
   else
     let m := Z.shiftr a k in
     let rest := Z.land a (Z.ones k) in
     let half := Z.shiftl 1 (k - 1) in
     let m' := if (half <? rest) || ((rest =? half) && Z.odd m) then m + 1 else m in
     Z.sgn n * Z.shiftl m' k)%Z.

(** Python's [==] on two cells, as applied elementwise by [DataFrame.eq].
    Numbers compare by value whatever their kind ([3 == 3.0],
    [True == 1]); texts compare by identity; a text is unequal to every
    number; NaN is unequal to everything, itself included. *)
Definition py_eq (a b : scalar) : bool :=
  match a, b with
  | SInt m, SInt n => Z.eqb m n
  | SFloat x _, SFloat y _ => Qeq_bool x y
  | SInt m, SFloat y _ => Qeq_bool (inject_Z (to_float64 m)) y
  | SFloat x _, SInt n => Qeq_bool x (inject_Z (to_float64 n))
  | SBool x, SBool y => Bool.eqb x y
  | SInt m, SBool y => Z.eqb m (Z.b2z y)
  | SBool x, SInt n => Z.eqb (Z.b2z x) n
  | SFloat x _, SBool y => Qeq_bool x (inject_Z (Z.b2z y))
  | SBool x, SFloat y _ => Qeq_bool (inject_Z (Z.b2z x)) y
  | SStr s, SStr t => String.eqb s t
  | _, _ => false
  end.

(** Python's [!=], as applied elementwise by [DataFrame.ne]. *)
Definition py_ne (a b : scalar) : bool := negb (py_eq a b).

(** [str(x)] of a cell, the conversion [astype(str)] applies. *)
Definition py_str (a : scalar) : string :=
  match a with
  | SInt n => NilZero.string_of_int (Z.to_int n)
  | SFloat _ repr => repr
  | SBool true => "True"
  | SBool false => "False"
  | SStr s => s
  | SNaN => "nan"
  end.

(** Identity of two cells as join keys: the same kind and the same content
    (the join treats two missing keys as the same key). *)
Definition key_eqb (a b : scalar) : bool :=
  match a, b with
  | SInt m, SInt n => Z.eqb m n
  | SFloat x _, SFloat y _ => Qeq_bool x y
  | SBool x, SBool y => Bool.eqb x y
  | SStr s, SStr t => String.eqb s t
  | SNaN, SNaN => true
  | _, _ => false
  end.

Fixpoint tuple_eqb (k1 k2 : list scalar) : bool :=
  match k1, k2 with
  | [], [] => true
  | a :: k1', b :: k2' => key_eqb a b && tuple_eqb k1' k2'
  | _, _ => false
  end.

(** ** Outcomes of a run *)

(** The exceptions a run can end with.  [ValueError_columns] is the one
    [validate_columns] raises; its two fields are the two lists its message
    interpolates.  [PandasError] stands for an exception raised inside a
    pandas call (its argument names the call). *)
Inductive exn : Type :=
| ValueError_columns (missing_in_v2 missing_in_v1 : list string)
| PandasError (call : string).

(** A step either returns, raises, or ends the process through
    [sys.exit] after printing a line on stderr. *)
Inductive outcome (A : Type) : Type :=
| Ok (a : A)
| Raise (e : exn)
| SysExit (status : Z) (stderr : string).
Arguments Ok {A} a.
Arguments Raise {A} e.
Arguments SysExit {A} status stderr.

Definition bind {A B : Type} (m : outcome A) (f : A -> outcome B) : outcome B :=
  match m with
  | Ok a => f a
  | Raise e => Raise e
  | SysExit n s => SysExit n s
  end.

Notation "x <- m ;; k" := (bind m (fun x => k))
  (at level 61, m at next level, right associativity).
Notation "m ;;; k" := (bind m (fun _ => k))
  (at level 61, right associativity).

(** ** Data frames *)

Definition mem (c : string) (l : list string) : bool :=
  existsb (String.eqb c) l.

Module Pandas.

(** The operations of pandas the script calls, as pandas 2 defines them.

    A frame: the column labels and the rows, each row holding one cell per
    label in label order.  The row index is not modelled: every frame the
    script handles has the default index and is written with
    [index=False]. *)
Record DataFrame : Type := mkDF {
  columns : list string;
  rows : list (list scalar)
}.

Definition len (df : DataFrame) : nat := length (rows df).

(** [df.empty]: some axis has length zero. *)
Definition empty (df : DataFrame) : bool :=
  match rows df, columns df with
  | [], _ => true
  | _, [] => true
  | _, _ => false
  end.

(** The cells of [row] that stand under label [c]. *)
Definition cells_at (c : string) (cols : list string) (row : list scalar)
  : list scalar :=
  map snd (filter (fun p => String.eqb (fst p) c) (combine cols row)).

(** The cells of [row] under the labels [names], in the order of [names]. *)
Definition select_row (names cols : list string) (row : list scalar)
  : list scalar :=
  flat_map (fun c => cells_at c cols row) names.

(** The labels of [df[names]]: each name once per column that carries it. *)
Definition select_labels (names cols : list string) : list string :=
  flat_map (fun c => filter (String.eqb c) cols) names.

(** [df[names]] with a list of labels; a label the frame lacks is a
    KeyError. *)
Definition getitem (names : list string) (df : DataFrame) : outcome DataFrame :=
  if forallb (fun c => mem c (columns df)) names
  then Ok (mkDF (select_labels names (columns df))
                (map (select_row names (columns df)) (rows df)))
  else Raise (PandasError "getitem").

(** Selection of rows by a boolean mask. *)
Fixpoint mask_rows {A : Type} (mask : list bool) (l : list A) : list A :=
  match mask, l with
  | b :: mask', x :: l' => if b then x :: mask_rows mask' l' else mask_rows mask' l'
  | _, _ => []
  end.

(** [df.loc[mask, names]]. *)
Definition loc (mask : list bool) (names : list string) (df : DataFrame)
  : outcome DataFrame :=
  sel <- getitem names df ;;
  Ok (mkDF (columns sel) (mask_rows mask (rows sel))).

(** [df[k] = df[k].astype(str)] on one row: every cell under [k] becomes
    the text [str] gives. *)
Definition astype_str_row (k : string) (cols : list string) (row : list scalar)
  : list scalar :=
  map (fun p => if String.eqb (fst p) k then SStr (py_str (snd p)) else snd p)
      (combine cols row).

Definition astype_str (k : string) (df : DataFrame) : DataFrame :=
  mkDF (columns df) (map (astype_str_row k (columns df)) (rows df)).

Fixpoint map2 {A B C : Type} (f : A -> B -> C) (l1 : list A) (l2 : list B)
  : list C :=
  match l1, l2 with
  | a :: l1', b :: l2' => f a b :: map2 f l1' l2'
  | _, _ => []
  end.

(** [a.eq(b.values)] and [a.ne(b.values)]: the elementwise comparison by
    position; the shapes must agree.  The cells of [b.values] are taken as
    they are: the rounding NumPy applies to the integers of an array that
    mixes int64 and float64 columns, which changes integers beyond 2^53
    only, is not modelled. *)
Definition cmp_values (f : scalar -> scalar -> bool) (a b : DataFrame)
  : outcome (list (list bool)) :=
  if (length (columns a) =? length (columns b))%nat
     && (len a =? len b)%nat
  then Ok (map2 (map2 f) (rows a) (rows b))
  else Raise (PandasError "eq").

Definition eq_values := cmp_values py_eq.
Definition ne_values := cmp_values py_ne.

(** [a == v] with one value [v] for every cell. *)
Definition eq_scalar (a : DataFrame) (v : scalar) : list (list bool) :=
  map (map (fun x => py_eq x v)) (rows a).

(** [m.all(axis=1)]. *)
Definition all_axis1 (m : list (list bool)) : list bool :=
  map (forallb (fun b => b)) m.

(** [df.columns = labels]: the number of labels must be the number of
    columns. *)
Definition set_columns (labels : list string) (df : DataFrame)
  : outcome DataFrame :=
  if (length labels =? length (columns df))%nat
  then Ok (mkDF labels (rows df))
  else Raise (PandasError "set_columns").

Definition insert_at {A : Type} (n : nat) (x : A) (l : list A) : list A :=
  firstn n l ++ x :: skipn n l.

(** [df.insert(pos, label, values)]: the label must be new, the position
    within the columns, and there must be one value per row. *)
Definition insert (pos : nat) (label : string) (values : list scalar)
  (df : DataFrame) : outcome DataFrame :=
  if mem label (columns df) then Raise (PandasError "insert")
  else if (length (columns df) <? pos)%nat then Raise (PandasError "insert")
  else if negb (length values =? len df)%nat then Raise (PandasError "insert")
  else Ok (mkDF (insert_at pos label (columns df))
                (map2 (insert_at pos) values (rows df))).

(** [df.drop(columns=label)]. *)
Definition drop_labels (labels cols : list string) (row : list scalar)
  : list scalar :=
  map snd (filter (fun p => negb (mem (fst p) labels)) (combine cols row)).

Definition drop (label : string) (df : DataFrame) : outcome DataFrame :=
  if mem label (columns df)
  then Ok (mkDF (filter (fun c => negb (String.eqb c label)) (columns df))
                (map (drop_labels [label] (columns df)) (rows df)))
  else Raise (PandasError "drop").

(** *** merge *)

Inductive how : Type := Inner | Left.

(** The label a column gets in the merged frame: a label both sides carry
    outside the keys takes the side's suffix. *)
Definition renamer (to_rename : list string) (suffix : string) (x : string)
  : string :=
  if mem x to_rename then (x ++ suffix)%string else x.

(** [Index.duplicated()]: for each label, whether it occurred before. *)
Fixpoint duplicated (seen l : list string) : list bool :=
  match l with
  | [] => []
  | c :: l' => mem c seen :: duplicated (c :: seen) l'
  end.

(** Whether the suffixes made two labels of one side equal that were
    different before (a MergeError). *)
Definition suffix_dups (labels orig : list string) : bool :=
  existsb (fun p => fst p && negb (snd p))
          (combine (duplicated [] labels) (duplicated [] orig)).

(** The rows of the right frame with the key tuple of [r1], in the right
    frame's order. *)
Definition matches (on lcols rcols : list string) (rrows : list (list scalar))
  (r1 : list scalar) : list (list scalar) :=
  filter (fun r2 => tuple_eqb (select_row on lcols r1) (select_row on rcols r2))
         rrows.

(** The rows one left row gives.  With [indicator] the row ends with the
    [_merge] cell. *)
Definition merge_row (on lcols rcols : list string) (h : how) (indicator : bool)
  (rrows : list (list scalar)) (r1 : list scalar) : list (list scalar) :=
  let both := if indicator then [SStr "both"] else [] in
  let left_only := if indicator then [SStr "left_only"] else [] in
  match matches on lcols rcols rrows r1, h with
  | [], Inner => []
  | [], Left =>
      [r1 ++ map (fun _ => SNaN) (filter (fun c => negb (mem c on)) rcols)
          ++ left_only]
  | ms, _ => map (fun r2 => r1 ++ drop_labels on rcols r2 ++ both) ms
  end.

(** [left.merge(right, on=on, how=h, suffixes=(ls, rs), indicator=ind)]:
    the columns of the left frame, then the columns of the right frame
    that are not keys; the rows in the order of the left frame, each left
    row once per right row with its key tuple. *)
Definition merge (left right : DataFrame) (on : list string) (h : how)
  (suffixes : string * string) (indicator : bool) : outcome DataFrame :=
  if negb (forallb (fun k => mem k (columns left) && mem k (columns right)) on)
  then Raise (PandasError "merge")
  else
    let rcols := filter (fun c => negb (mem c on)) (columns right) in
    let to_rename := filter (fun c => mem c rcols) (columns left) in
    let llabels := map (renamer to_rename (fst suffixes)) (columns left) in
    let rlabels := map (renamer to_rename (snd suffixes)) rcols in
    if suffix_dups llabels (columns left) || suffix_dups rlabels rcols
    then Raise (PandasError "merge")
    else if indicator
            && existsb (fun c => mem c (columns left ++ columns right))
                       ["_left_indicator"; "_right_indicator"; "_merge"]
    then Raise (PandasError "merge")
    else Ok (mkDF (llabels ++ rlabels ++ (if indicator then ["_merge"] else []))
                  (flat_map (merge_row on (columns left) (columns right) h
                                       indicator (rows right))
                            (rows left))).

End Pandas.

(** ** The script *)

Module ComparacionStock.
Import Pandas.

(** The four frames [main] writes. *)
Record salidas : Type := mkSalidas {
  identicas : DataFrame;
  diferentes : DataFrame;
  solo_v2 : DataFrame;
  solo_v1 : DataFrame
}.

Definition set_ne (l1 l2 : list string) : bool :=
  negb (forallb (fun c => mem c l2) l1 && forallb (fun c => mem c l1) l2).

(** [validate_columns]: when the two label sets differ, a ValueError whose
    message lists the labels of each frame the other one lacks. *)
Definition validate_columns (df1 df2 : DataFrame) : outcome unit :=
  if set_ne (columns df1) (columns df2) then
    let missing_in_v2 := filter (fun c => negb (mem c (columns df2))) (columns df1) in
    let missing_in_v1 := filter (fun c => negb (mem c (columns df1))) (columns df2) in
    Raise (ValueError_columns missing_in_v2 missing_in_v1)
  else Ok tt.

(** The line printed on stderr for a key one of the frames lacks. *)
Definition clave_msg (k : string) : string :=
  ("[ERROR] La clave '" ++ k ++ "' no existe en ambos CSVs.")%string.

(** The loop over [keys] that ends the run at the first key one of the
    frames lacks. *)
Fixpoint check_keys (keys : list string) (df_v1 df_v2 : DataFrame) : outcome unit :=
  match keys with
  | [] => Ok tt
  | k :: keys' =>
      if negb (mem k (columns df_v1)) || negb (mem k (columns df_v2))
      then SysExit 1 (clave_msg k)
      else check_keys keys' df_v1 df_v2
  end.

(** The loop that turns the key columns into text. *)
Definition astype_keys (keys : list string) (df : DataFrame) : DataFrame :=
  fold_left (fun d k => astype_str k d) keys df.

Definition cols_to_compare (keys : list string) (df_v1 : DataFrame) : list string :=
  filter (fun c => negb (mem c keys)) (columns df_v1).

Definition suffixed (suffix : string) (cols : list string) : list string :=
  map (fun c => (c ++ suffix)%string) cols.

(** The names of the compared columns whose flag is set, in the order of
    the compared columns. *)
Fixpoint diff_names (cols : list string) (row : list bool) : list string :=
  match cols, row with
  | c :: cols', val :: row' =>
      if val then c :: diff_names cols' row' else diff_names cols' row'
  | _, _ => []
  end.

(** The text of the [diff_cols] cell of each differing row. *)
Definition diff_cols_list (cols : list string) (diffs : list (list bool))
  : list scalar :=
  map (fun row => SStr (String.concat "," (diff_names cols row))) diffs.

(** Rows of [left] whose key tuple no row of [right] has: the left merge
    with the indicator, filtered on [left_only], without the indicator. *)
Definition solo (keys : list string) (left right : DataFrame) : outcome DataFrame :=
  rkeys <- getitem keys right ;;
  m <- merge left rkeys keys Left ("_x", "_y") true ;;
  ind <- getitem ["_merge"] m ;;
  let left_only := all_axis1 (eq_scalar ind (SStr "left_only")) in
  drop "_merge" (mkDF (columns m) (mask_rows left_only (rows m))).

(** [main] from the two loaded frames on. *)
Definition main (keys : list string) (df_v1 df_v2 : DataFrame) : outcome salidas :=
  check_keys keys df_v1 df_v2 ;;;
  validate_columns df_v1 df_v2 ;;;
  let df_v1 := astype_keys keys df_v1 in
  let df_v2 := astype_keys keys df_v2 in
  merged <- merge df_v1 df_v2 keys Inner ("_v1", "_v2") false ;;
  let cols := cols_to_compare keys df_v1 in
  let left_cols := suffixed "_v1" cols in
  let right_cols := suffixed "_v2" cols in
  lhs <- getitem left_cols merged ;;
  rhs <- getitem right_cols merged ;;
  eq_matrix <- eq_values lhs rhs ;;
  let identicas_mask := all_axis1 eq_matrix in
  let not_mask := map negb identicas_mask in
  identicas <- loc identicas_mask (keys ++ left_cols) merged ;;
  identicas <- set_columns (columns df_v1) identicas ;;
  diferentes <- loc not_mask (keys ++ left_cols ++ right_cols) merged ;;
  diferentes <-
    (if negb (empty diferentes) then
       dl <- loc not_mask left_cols merged ;;
       dr <- loc not_mask right_cols merged ;;
       diffs <- ne_values dl dr ;;
       insert (length keys) "diff_cols" (diff_cols_list cols diffs) diferentes
     else Ok diferentes) ;;
  solo_v2 <- solo keys df_v2 df_v1 ;;
  solo_v1 <- solo keys df_v1 df_v2 ;;
  Ok (mkSalidas identicas diferentes solo_v2 solo_v1).

End ComparacionStock.

Import Pandas ComparacionStock.

(** ** Well-formed input *)

Fixpoint nodupb (l : list string) : bool :=
  match l with
  | [] => true
  | c :: l' => negb (mem c l') && nodupb l'
  end.

(** A frame as [pd.read_csv] gives it: labels without repetition and one
    cell per label in every row. *)
Definition wf_frame (df : DataFrame) : bool :=
  nodupb (columns df)
  && forallb (fun r => (length r =? length (columns df))%nat) (rows df).

(** Labels pandas uses for the merge indicator. *)
Definition reserved : list string :=
  ["_left_indicator"; "_right_indicator"; "_merge"].

(** The inputs on which no step of [main] fails: two well-formed frames
    with the same label set, keys without repetition that both frames
    carry, and no label that collides with a label the script or pandas
    makes up (a key that reads like a suffixed compared column, a key named
    [diff_cols], a column named like the merge indicator). *)
Definition valid_input (keys : list string) (df_v1 df_v2 : DataFrame) : bool :=
  wf_frame df_v1 && wf_frame df_v2
  && nodupb keys
  && forallb (fun k => mem k (columns df_v1) && mem k (columns df_v2)) keys
  && negb (set_ne (columns df_v1) (columns df_v2))
  && forallb (fun k => negb (mem k (suffixed "_v1" (cols_to_compare keys df_v1)))
                       && negb (mem k (suffixed "_v2" (cols_to_compare keys df_v1))))
             keys
  && negb (mem "diff_cols" keys)
  && forallb (fun c => negb (mem c (columns df_v1))) reserved.

(** ** The run read row by row

    What [main] computes, told for rows instead of frames.  These
    definitions only use the selections of the script ([select_row] over the
    key columns and over [cols_to_compare]); [main_rows] below proves that
    [main] returns exactly these rows. *)
Section Rowwise.
Variable keys : list string.
Variables df_v1 df_v2 : DataFrame.

(** The rows after the key columns were turned into text. *)
Definition old_rows : list (list scalar) := rows (astype_keys keys df_v1).
Definition new_rows : list (list scalar) := rows (astype_keys keys df_v2).

Definition old_key (r1 : list scalar) := select_row keys (columns df_v1) r1.
Definition new_key (r2 : list scalar) := select_row keys (columns df_v2) r2.

Definition same_key (r1 r2 : list scalar) : bool :=
  tuple_eqb (old_key r1) (new_key r2).

(** The pairs of the inner join: for each old row in turn, every new row
    with its key tuple. *)
Definition aligned_pairs : list (list scalar * list scalar) :=
  flat_map (fun r1 => map (pair r1) (filter (same_key r1) new_rows)) old_rows.

Definition old_side (p : list scalar * list scalar) : list scalar :=
  select_row (cols_to_compare keys df_v1) (columns df_v1) (fst p).
Definition new_side (p : list scalar * list scalar) : list scalar :=
  select_row (cols_to_compare keys df_v1) (columns df_v2) (snd p).

(** The entry of [identicas_mask] for a pair. *)
Definition pair_equal (p : list scalar * list scalar) : bool :=
  forallb (fun b => b) (map2 py_eq (old_side p) (new_side p)).

(** The names of the compared columns on which a pair differs. *)
Definition pair_diff (p : list scalar * list scalar) : list string :=
  diff_names (cols_to_compare keys df_v1) (map2 py_ne (old_side p) (new_side p)).

Definition identical_row (p : list scalar * list scalar) : list scalar :=
  old_key (fst p) ++ old_side p.

Definition differing_row (p : list scalar * list scalar) : list scalar :=
  old_key (fst p) ++ SStr (String.concat "," (pair_diff p))
    :: old_side p ++ new_side p.

Definition identical_pairs := filter pair_equal aligned_pairs.
Definition differing_pairs := filter (fun p => negb (pair_equal p)) aligned_pairs.

Definition differing_columns : list string :=
  match differing_pairs with
  | [] => keys ++ suffixed "_v1" (cols_to_compare keys df_v1)
               ++ suffixed "_v2" (cols_to_compare keys df_v1)
  | _ => keys ++ "diff_cols" :: suffixed "_v1" (cols_to_compare keys df_v1)
               ++ suffixed "_v2" (cols_to_compare keys df_v1)
  end.

Definition only_old : list (list scalar) :=
  filter (fun r1 => negb (existsb (same_key r1) new_rows)) old_rows.
Definition only_new : list (list scalar) :=
  filter (fun r2 => negb (existsb (fun r1 => same_key r1 r2) old_rows)) new_rows.

Definition rowwise : salidas :=
  mkSalidas (mkDF (columns df_v1) (map identical_row identical_pairs))
            (mkDF differing_columns (map differing_row differing_pairs))
            (mkDF (columns df_v2) only_new)
            (mkDF (columns df_v1) only_old).
End Rowwise.

(** ** Records and key tuples of the input *)

(** One row after the loop that turns its key cells into text. *)
Definition astype_row (keys cols : list string) (row : list scalar) : list scalar :=
  fold_left (fun r k => astype_str_row k cols r) keys row.

(** The key tuple of a row as text. *)
Definition key_text (keys cols : list string) (row : list scalar) : list string :=
  map py_str (select_row keys cols row).

Fixpoint texts_eqb (t1 t2 : list string) : bool :=
  match t1, t2 with
  | [], [] => true
  | a :: t1', b :: t2' => String.eqb a b && texts_eqb t1' t2'
  | _, _ => false
  end.

(** How many of the rows [rs] carry the key tuple [kt], the key cells of a
    row being read by [key_of]. *)
Definition count_key (key_of : list scalar -> list scalar) (kt : list string)
  (rs : list (list scalar)) : nat :=
  length (filter (fun r => texts_eqb (map py_str (key_of r)) kt) rs).

(** The key cells of a row of [identicas] or [diferentes]: the script puts
    them first. *)
Definition leading (keys : list string) (row : list scalar) : list scalar :=
  firstn (length keys) row.

(** The number of rows with key tuple [kt] in the three frames an old row
    can go to, and in the three a new row can go to. *)
Definition old_occurrences (keys : list string) (out : salidas) (kt : list string)
  : nat :=
  count_key (leading keys) kt (rows (identicas out))
  + count_key (leading keys) kt (rows (diferentes out))
  + count_key (select_row keys (columns (solo_v1 out))) kt (rows (solo_v1 out)).

Definition new_occurrences (keys : list string) (out : salidas) (kt : list string)
  : nat :=
  count_key (leading keys) kt (rows (identicas out))
  + count_key (leading keys) kt (rows (diferentes out))
  + count_key (select_row keys (columns (solo_v2 out))) kt (rows (solo_v2 out)).

(** ** Cells by column name *)

(** The cell of a row under the label [c] (the first one, should the label
    repeat; NaN when the frame lacks the label). *)
Definition cell (cols : list string) (row : list scalar) (c : string) : scalar :=
  hd SNaN (cells_at c cols row).

(** Whether the two rows of a pair compare unequal on column [c]. *)
Definition column_differs (df_v1 df_v2 : DataFrame)
  (p : list scalar * list scalar) (c : string) : bool :=
  py_ne (cell (columns df_v1) (fst p) c) (cell (columns df_v2) (snd p) c).

(** ** Order of rows *)

(** [subseq l1 l2]: [l1] is [l2] with some elements left out. *)
Inductive subseq {A : Type} : list A -> list A -> Prop :=
| subseq_nil : forall l, subseq [] l
| subseq_skip : forall x l1 l2, subseq l1 l2 -> subseq l1 (x :: l2)
| subseq_take : forall x l1 l2, subseq l1 l2 -> subseq (x :: l1) (x :: l2).

(** [follows l1 l2]: [l1] runs through [l2] in order, leaving elements out
    and taking an element as often as it likes before it moves on. *)
Inductive follows {A : Type} : list A -> list A -> Prop :=
| follows_nil : forall l, follows [] l
| follows_skip : forall x l1 l2, follows l1 l2 -> follows l1 (x :: l2)
| follows_take : forall x l1 l2, follows l1 (x :: l2) -> follows (x :: l1) (x :: l2).

(** The positions of the pairs of a join: the old row [i] with the new row
    [j], for each [i] in turn and, for one [i], each [j] in turn. *)
Definition join_indices {A B : Type} (R : A -> B -> bool) (la : list A)
  (lb : list B) (da : A) (db : B) : list (nat * nat) :=
  flat_map (fun i =>
              map (pair i)
                  (filter (fun j => R (nth i la da) (nth j lb db))
                          (seq 0 (length lb))))
           (seq 0 (length la)).

(** [pair_before p q]: the pair of positions [p] comes before [q], the
    position in the old frame first, then the position in the new frame. *)
Definition pair_before (p q : nat * nat) : Prop :=
  fst p < fst q \/ (fst p = fst q /\ snd p < snd q).

(** The old row and the new row at a pair of positions (keys as text). *)
Definition pair_at (keys : list string) (df_v1 df_v2 : DataFrame)
  (ij : nat * nat) : list scalar * list scalar :=
  (nth (fst ij) (old_rows keys df_v1) [], nth (snd ij) (new_rows keys df_v2) []).

(** [in_join_order keys df_v1 df_v2 made out_rows]: the rows [out_rows] are
    made, one after the other, from pairs of an old and a new row with the
    same key tuple whose positions strictly increase: the rows come in the
    order of the old rows they are made from, and those made from one old
    row in the order of the new rows. *)
Definition in_join_order (keys : list string) (df_v1 df_v2 : DataFrame)
  (made : list scalar * list scalar -> list scalar)
  (out_rows : list (list scalar)) : Prop :=
  exists idx : list (nat * nat),
    StronglySorted pair_before idx
    /\ Forall (fun ij => fst ij < len df_v1 /\ snd ij < len df_v2
                         /\ same_key keys df_v1 df_v2
                              (fst (pair_at keys df_v1 df_v2 ij))
                              (snd (pair_at keys df_v1 df_v2 ij)) = true) idx
    /\ out_rows = map (fun ij => made (pair_at keys df_v1 df_v2 ij)) idx.

(** The key tuples of the rows of [identicas] or [diferentes], as text. *)
Definition leading_texts (keys : list string) (df : DataFrame) : list (list string) :=
  map (fun row => map py_str (leading keys row)) (rows df).

(** ** Output files *)

(** [os.path.join(a, b)] of [posixpath]: a second part that starts with the
    separator replaces the first; otherwise the parts are put together,
    with a separator unless the first part is empty or ends with one. *)
Definition starts_with_sep (b : string) : bool :=
  match b with
  | String c _ => Ascii.eqb c "/"
  | EmptyString => false
  end.

Fixpoint ends_with_sep (a : string) : bool :=
  match a with
  | EmptyString => false
  | String c EmptyString => Ascii.eqb c "/"
  | String _ a' => ends_with_sep a'
  end.

Definition path_join (a b : string) : string :=
  if starts_with_sep b then b
  else match a with
       | EmptyString => b
       | _ => if ends_with_sep a then (a ++ b)%string else (a ++ "/" ++ b)%string
       end.

(** [prefix = (args.prefix + "_") if args.prefix else ""]. *)
Definition file_prefix (prefix_arg : string) : string :=
  match prefix_arg with
  | EmptyString => ""
  | _ => (prefix_arg ++ "_")%string
  end.

(** The names of the four files, in the order [main] writes them. *)
Definition file_names : list string :=
  ["coinciden_completamente.csv"; "difieren.csv"; "solo_en_v2.csv"; "solo_en_v1.csv"].

(** [path_identicas], [path_difieren], [path_solo_v2], [path_solo_v1]. *)
Definition output_paths (outdir prefix_arg : string) : list string :=
  map (fun name => path_join outdir (file_prefix prefix_arg ++ name)%string)
      file_names.

(** ** Reading [diff_cols] back *)



(** ** The columns in another order *)

(** The frame [df] with its columns put in the order [names], as
    [df[names]] gives it when [names] are the labels of [df]. *)
Definition reorder (names : list string) (df : DataFrame) : DataFrame :=
  mkDF names (map (select_row names (columns df)) (rows df)).

(** ** Sample inputs *)

(** The scenario of the design document: one old row, two new rows, the
    first of which has the old row's key and another quantity. *)
Definition ex_keys : list string := ["ItemNo"; "LocationCode"].
Definition ex_old : DataFrame :=
  mkDF ["ItemNo"; "LocationCode"; "Qty"] [[SStr "A1"; SStr "L1"; SInt 10]].
Definition ex_new : DataFrame :=
  mkDF ["ItemNo"; "LocationCode"; "Qty"]
       [[SStr "A1"; SStr "L1"; SInt 12]; [SStr "A2"; SStr "L1"; SInt 5]].

(** One key, one compared column, the texts [3] and [3.0]. *)
Definition strict_old : DataFrame := mkDF ["K"; "Qty"] [[SStr "a"; SStr "3"]].
Definition strict_new : DataFrame := mkDF ["K"; "Qty"] [[SStr "a"; SStr "3.0"]].


(** The key column is not the first column of the frames; one row, the
    same in both frames. *)
Definition shifted : DataFrame := mkDF ["Qty"; "ItemNo"] [[SInt 10; SStr "A1"]].

(** Frames for the checks of the columns: [with_k] has the key column [K],
    [without_k] lacks it. *)
Definition with_k : DataFrame := mkDF ["K"; "A"] [[SStr "a"; SInt 1]].
Definition without_k : DataFrame := mkDF ["A"] [[SInt 1]].
Definition with_extra : DataFrame := mkDF ["K"; "A"; "B"] [[SStr "a"; SInt 1; SInt 2]].

(** A frame whose key cell is missing. *)
Definition with_nan_key : DataFrame := mkDF ["K"; "A"] [[SNaN; SInt 1]].

(** A frame that repeats a key tuple, and a frame with a missing value. *)
Definition repeated : DataFrame :=
  mkDF ["K"; "Qty"] [[SStr "a"; SInt 1]; [SStr "a"; SInt 2]].
Definition with_nan : DataFrame := mkDF ["K"; "Qty"] [[SStr "a"; SNaN]].

(** The same two rows in the two orders. *)
Definition ab : DataFrame :=
  mkDF ["K"; "Qty"] [[SStr "a"; SInt 1]; [SStr "b"; SInt 2]].
Definition ba : DataFrame :=
  mkDF ["K"; "Qty"] [[SStr "b"; SInt 2]; [SStr "a"; SInt 1]].

(** A frame whose first and third row have the same key. *)
Definition aba : DataFrame :=
  mkDF ["K"; "Qty"] [[SStr "a"; SInt 1]; [SStr "b"; SInt 2]; [SStr "a"; SInt 3]].

(** ** Texts *)

Lemma length_append (x a : string) :
  String.length (x ++ a)%string = String.length x + String.length a.
Proof. induction x as [|c x IH]; simpl; [reflexivity | now rewrite IH]. Qed.

(** Two texts with endings of one length are equal only when the endings
    and what precedes them are equal. *)
Lemma append_inj (x y a b : string) :
  String.length a = String.length b ->
  (x ++ a)%string = (y ++ b)%string -> x = y /\ a = b.
Proof.
  revert y. induction x as [|c x IH]; intros [|d y] Hl H; simpl in H.
  - now split.
  - apply (f_equal String.length) in H. simpl in H.
    rewrite length_append in H. lia.
  - apply (f_equal String.length) in H. simpl in H.
    rewrite length_append in H. lia.
  - injection H as -> H. destruct (IH y Hl H) as [-> ->]. now split.
Qed.

Lemma suffix_inj (a x y : string) : (x ++ a)%string = (y ++ a)%string -> x = y.
Proof. intros H. now destruct (append_inj x y a a eq_refl H). Qed.

Lemma v1_not_v2 (x y : string) : (x ++ "_v1")%string <> (y ++ "_v2")%string.
Proof. intros H. destruct (append_inj x y "_v1" "_v2" eq_refl H) as [_ E]. discriminate. Qed.

Lemma diff_cols_not_suffixed (x a : string) :
  a = "_v1" \/ a = "_v2" -> (x ++ a)%string <> "diff_cols".
Proof.
  intros Ha H. change "diff_cols" with ("diff_c" ++ "ols")%string in H.
  destruct Ha as [-> | ->];
    (apply append_inj in H; [destruct H as [_ E]; discriminate | reflexivity]).
Qed.

(** ** Membership and duplicates *)

Lemma mem_In (c : string) (l : list string) : mem c l = true <-> In c l.
Proof.
  unfold mem. rewrite existsb_exists. split.
  - intros [x [Hx E]]. apply String.eqb_eq in E. now subst.
  - intros H. exists c. split; [assumption | apply String.eqb_refl].
Qed.

Lemma mem_not_In (c : string) (l : list string) : mem c l = false <-> ~ In c l.
Proof.
  rewrite <- mem_In. destruct (mem c l); split; intros; congruence.
Qed.

Lemma nodupb_NoDup (l : list string) : nodupb l = true <-> NoDup l.
Proof.
  induction l as [|c l IH]; simpl.
  - split; [constructor | reflexivity].
  - rewrite andb_true_iff, negb_true_iff, mem_not_In, IH. split.
    + intros [H1 H2]. now constructor.
    + intros H. inversion H. now split.
Qed.

(** ** Rows and labels *)

Lemma combine_app {A B : Type} (l1 l2 : list A) (r1 r2 : list B) :
  length l1 = length r1 ->
  combine (l1 ++ l2) (r1 ++ r2) = combine l1 r1 ++ combine l2 r2.
Proof.
  revert r1. induction l1 as [|a l1 IH]; intros [|b r1] H; simpl in *;
    try discriminate; [reflexivity|].
  f_equal. apply IH. now injection H.
Qed.

Lemma cells_at_app (c : string) (l1 l2 : list string) (r1 r2 : list scalar) :
  length l1 = length r1 ->
  cells_at c (l1 ++ l2) (r1 ++ r2) = cells_at c l1 r1 ++ cells_at c l2 r2.
Proof.
  intros H. unfold cells_at. now rewrite combine_app, filter_app, map_app.
Qed.

Lemma cells_at_nil_r (c : string) (cols : list string) : cells_at c cols [] = [].
Proof. unfold cells_at. now destruct cols. Qed.

Lemma cells_at_cons (c x : string) (cols : list string) (v : scalar) (row : list scalar) :
  cells_at c (x :: cols) (v :: row) =
  if String.eqb x c then v :: cells_at c cols row else cells_at c cols row.
Proof. unfold cells_at. simpl. now destruct (String.eqb x c). Qed.

(** Relabelling the columns moves the cells along. *)
Lemma cells_at_map (f : string -> string) (c c' : string) (cols : list string)
  (row : list scalar) :
  (forall x, In x cols -> String.eqb (f x) c' = String.eqb x c) ->
  cells_at c' (map f cols) row = cells_at c cols row.
Proof.
  revert row. induction cols as [|x cols IH]; intros row H; [reflexivity|].
  destruct row as [|v row]; [now rewrite !cells_at_nil_r|].
  simpl map. rewrite !cells_at_cons, (H x (or_introl eq_refl)).
  rewrite IH; [reflexivity|]. intros y Hy. apply H. now right.
Qed.

Lemma cells_at_none (c : string) (cols : list string) (row : list scalar) :
  (forall x, In x cols -> String.eqb x c = false) -> cells_at c cols row = [].
Proof.
  revert row. induction cols as [|x cols IH]; intros row H; [reflexivity|].
  destruct row as [|v row]; [now rewrite cells_at_nil_r|].
  rewrite cells_at_cons, (H x (or_introl eq_refl)). apply IH.
  intros y Hy. apply H. now right.
Qed.

(** The cells left after the columns [on] were dropped. *)
Lemma cells_at_drop (on : list string) (c : string) (cols : list string)
  (row : list scalar) :
  mem c on = false ->
  cells_at c (filter (fun x => negb (mem x on)) cols) (drop_labels on cols row)
  = cells_at c cols row.
Proof.
  intros Hc. revert row. induction cols as [|x cols IH]; intros row; [reflexivity|].
  destruct row as [|v row].
  - unfold drop_labels. simpl. now rewrite !cells_at_nil_r.
  - unfold drop_labels in *. simpl. rewrite cells_at_cons.
    destruct (mem x on) eqn:Hx; simpl.
    + rewrite IH. destruct (String.eqb_spec x c); [congruence | reflexivity].
    + rewrite cells_at_cons, IH. reflexivity.
Qed.

Lemma length_drop_labels (on cols : list string) (row : list scalar) :
  length row = length cols ->
  length (drop_labels on cols row) = length (filter (fun x => negb (mem x on)) cols).
Proof.
  revert row. induction cols as [|x cols IH]; intros [|v row] H; simpl in *;
    try discriminate; [reflexivity|].
  unfold drop_labels in *. simpl. injection H as H.
  destruct (mem x on); simpl; [now apply IH | f_equal; now apply IH].
Qed.

(** Under labels without repetition a label names one cell. *)
Lemma cells_at_single (c : string) (cols : list string) (row : list scalar) :
  NoDup cols -> In c cols -> length row = length cols ->
  exists v, cells_at c cols row = [v].
Proof.
  intros Hn. revert row. induction Hn as [|x cols Hx Hn IH]; intros row Hc Hl.
  - destruct Hc.
  - destruct row as [|v row]; [discriminate|]. injection Hl as Hl.
    rewrite cells_at_cons. destruct (String.eqb_spec x c) as [->|Hne].
    + exists v. f_equal. apply cells_at_none. intros y Hy.
      apply String.eqb_neq. intros ->. contradiction.
    + destruct Hc as [Hc|Hc]; [contradiction|]. now apply IH.
Qed.

Lemma select_row_app (n1 n2 cols : list string) (row : list scalar) :
  select_row (n1 ++ n2) cols row = select_row n1 cols row ++ select_row n2 cols row.
Proof. unfold select_row. apply flat_map_app. Qed.

Lemma length_select_row (names cols : list string) (row : list scalar) :
  NoDup cols -> incl names cols -> length row = length cols ->
  length (select_row names cols row) = length names.
Proof.
  intros Hn Hi Hl. induction names as [|c names IH]; [reflexivity|].
  unfold select_row in *. simpl. rewrite length_app, IH.
  - destruct (cells_at_single c cols row Hn (Hi c (or_introl eq_refl)) Hl) as [v ->].
    reflexivity.
  - intros x Hx. apply Hi. now right.
Qed.

Lemma filter_eqb_single (c : string) (cols : list string) :
  NoDup cols -> In c cols -> filter (String.eqb c) cols = [c].
Proof.
  intros Hn. induction Hn as [|x cols Hx Hn IH]; intros Hc; [destruct Hc|].
  simpl. destruct (String.eqb_spec c x) as [->|Hne].
  - f_equal. clear IH Hc. induction cols as [|y cols IH]; [reflexivity|].
    simpl. destruct (String.eqb_spec x y) as [->|_].
    + exfalso. apply Hx. now left.
    + apply IH; [intros H; apply Hx; now right | now inversion Hn].
  - destruct Hc as [Hc|Hc]; [congruence | now apply IH].
Qed.

Lemma select_labels_id (names cols : list string) :
  NoDup cols -> incl names cols -> select_labels names cols = names.
Proof.
  intros Hn Hi. induction names as [|c names IH]; [reflexivity|].
  unfold select_labels in *. simpl.
  rewrite filter_eqb_single by (auto; apply Hi; now left).
  simpl. f_equal. apply IH. intros x Hx. apply Hi. now right.
Qed.

Lemma forallb_mem_incl (names cols : list string) :
  forallb (fun c => mem c cols) names = true <-> incl names cols.
Proof.
  rewrite forallb_forall. unfold incl. split; intros H x Hx.
  - apply mem_In. now apply H.
  - apply mem_In. now apply H.
Qed.

(** [df[names]] on labels without repetition. *)
Lemma getitem_ok (names : list string) (df : DataFrame) :
  NoDup (columns df) -> incl names (columns df) ->
  getitem names df
  = Ok (mkDF names (map (select_row names (columns df)) (rows df))).
Proof.
  intros Hn Hi. unfold getitem.
  rewrite (proj2 (forallb_mem_incl names (columns df)) Hi).
  now rewrite select_labels_id.
Qed.

(** ** Masks *)

Lemma mask_rows_map {A B : Type} (P : A -> bool) (f : A -> B) (l : list A) :
  mask_rows (map P l) (map f l) = map f (filter P l).
Proof.
  induction l as [|a l IH]; [reflexivity|]. simpl.
  destruct (P a); simpl; now rewrite IH.
Qed.

Lemma map2_map {A B C D : Type} (h : B -> C -> D) (f : A -> B) (g : A -> C)
  (l : list A) :
  map2 h (map f l) (map g l) = map (fun a => h (f a) (g a)) l.
Proof. induction l as [|a l IH]; [reflexivity|]. simpl. now rewrite IH. Qed.

Lemma flat_map_pairs {A B C : Type} (g : A -> list B) (f : A -> B -> C)
  (l : list A) :
  flat_map (fun a => map (f a) (g a)) l
  = map (fun p => f (fst p) (snd p)) (flat_map (fun a => map (pair a) (g a)) l).
Proof.
  induction l as [|a l IH]; [reflexivity|]. simpl.
  rewrite map_app, IH, map_map. reflexivity.
Qed.

(** ** Turning the key columns into text *)

Lemma columns_astype_keys (keys : list string) (df : DataFrame) :
  columns (astype_keys keys df) = columns df.
Proof.
  unfold astype_keys. revert df. induction keys as [|k keys IH]; intros df;
    [reflexivity|]. simpl. now rewrite IH.
Qed.

Lemma length_astype_str_row (k : string) (cols : list string) (row : list scalar) :
  length row = length cols -> length (astype_str_row k cols row) = length cols.
Proof.
  intros H. unfold astype_str_row. rewrite length_map, length_combine. lia.
Qed.

Lemma rows_astype_keys_length (keys : list string) (df : DataFrame) :
  Forall (fun r => length r = length (columns df)) (rows df) ->
  Forall (fun r => length r = length (columns df)) (rows (astype_keys keys df)).
Proof.
  unfold astype_keys. revert df. induction keys as [|k keys IH]; intros df H;
    [assumption|]. simpl.
  change (columns df) with (columns (astype_str k df)). apply IH. simpl.
  apply Forall_map. eapply Forall_impl; [|exact H].
  intros r Hr. now apply length_astype_str_row.
Qed.

Lemma length_rows_astype_keys (keys : list string) (df : DataFrame) :
  length (rows (astype_keys keys df)) = length (rows df).
Proof.
  unfold astype_keys. revert df. induction keys as [|k keys IH]; intros df;
    [reflexivity|]. simpl. rewrite IH. simpl. apply length_map.
Qed.

(** ** Duplicated labels *)

Lemma duplicated_NoDup (seen l : list string) :
  NoDup l -> (forall x, In x l -> ~ In x seen) ->
  Forall (fun b => b = false) (duplicated seen l).
Proof.
  intros Hn. revert seen. induction Hn as [|c l Hc Hn IH]; intros seen Hs;
    simpl; constructor.
  - apply mem_not_In. apply Hs. now left.
  - apply IH. intros x Hx [<-|Hin]; [contradiction|].
    apply (Hs x); [now right | assumption].
Qed.

Lemma suffix_dups_NoDup (labels orig : list string) :
  NoDup labels -> suffix_dups labels orig = false.
Proof.
  intros Hn. unfold suffix_dups.
  assert (H : Forall (fun b => b = false) (duplicated [] labels))
    by (apply duplicated_NoDup; [assumption | intros x _ []]).
  revert H. generalize (duplicated [] labels) (duplicated [] orig).
  induction l as [|b l IH]; intros l' H; [reflexivity|].
  destruct l' as [|b' l']; [reflexivity|]. inversion H; subst. simpl.
  now apply IH.
Qed.

Lemma set_ne_false (l1 l2 : list string) :
  set_ne l1 l2 = false <-> (forall c, In c l1 <-> In c l2).
Proof.
  unfold set_ne. rewrite negb_false_iff, andb_true_iff, !forallb_mem_incl.
  unfold incl. split.
  - intros [H1 H2] c. split; auto.
  - intros H. split; intros c; apply H.
Qed.

Lemma tuple_eqb_sym (k1 k2 : list scalar) : tuple_eqb k1 k2 = tuple_eqb k2 k1.
Proof.
  revert k2. induction k1 as [|a k1 IH]; intros [|b k2]; simpl; try reflexivity.
  rewrite IH. f_equal.
  destruct a as [m|x rx|x|s|], b as [n|y ry|y|t|]; simpl; try reflexivity.
  - apply Z.eqb_sym.
  - apply Qeq_bool_comm.
  - now destruct x, y.
  - apply String.eqb_sym.
Qed.

(** ** Rows of one frame without a match in the other *)

Lemma select_row_cons_other (names : list string) (k : string) (cols : list string)
  (v : scalar) (row : list scalar) :
  ~ In k names ->
  select_row names (k :: cols) (v :: row) = select_row names cols row.
Proof.
  intros H. induction names as [|c names IH]; [reflexivity|].
  unfold select_row in *. simpl. rewrite cells_at_cons.
  destruct (String.eqb_spec k c) as [->|_]; [exfalso; apply H; now left|].
  f_equal. apply IH. intros Hk. apply H. now right.
Qed.

Lemma select_row_self (names : list string) (t : list scalar) :
  NoDup names -> length t = length names -> select_row names names t = t.
Proof.
  intros Hn. revert t. induction Hn as [|k names Hk Hn IH]; intros [|v t] Hl;
    try discriminate; [reflexivity|].
  injection Hl as Hl. unfold select_row. simpl.
  rewrite cells_at_cons, String.eqb_refl.
  rewrite cells_at_none by (intros x Hx; apply String.eqb_neq; congruence).
  simpl. f_equal.
  change (select_row names (k :: names) (v :: t) = t).
  rewrite select_row_cons_other by assumption. now apply IH.
Qed.

Lemma drop_labels_all (on : list string) (t : list scalar) :
  drop_labels on on t = [].
Proof.
  unfold drop_labels.
  assert (H : forall cols, incl cols on ->
    map snd (filter (fun p : string * scalar => negb (mem (fst p) on))
                    (combine cols t)) = []).
  { intros cols. revert t. induction cols as [|c cols IH]; intros t Hi;
      [reflexivity|].
    destruct t as [|v t]; [reflexivity|]. simpl.
    rewrite (proj2 (mem_In c on) (Hi c (or_introl eq_refl))). simpl.
    apply IH. intros x Hx. apply Hi. now right. }
  apply H. apply incl_refl.
Qed.

Lemma filter_notin_self (on : list string) :
  filter (fun c => negb (mem c on)) on = [].
Proof.
  assert (H : forall l, incl l on -> filter (fun c => negb (mem c on)) l = []).
  { induction l as [|c l IH]; intros Hi; [reflexivity|]. simpl.
    rewrite (proj2 (mem_In c on) (Hi c (or_introl eq_refl))). simpl.
    apply IH. intros x Hx. apply Hi. now right. }
  apply H. apply incl_refl.
Qed.

Lemma existsb_filter_nil {A : Type} (f : A -> bool) (l : list A) :
  existsb f l = match filter f l with [] => false | _ => true end.
Proof.
  induction l as [|a l IH]; [reflexivity|]. simpl.
  destruct (f a); [reflexivity | exact IH].
Qed.

Lemma drop_last (label : string) (cols : list string) (r : list scalar) (v : scalar) :
  ~ In label cols -> length r = length cols ->
  drop_labels [label] (cols ++ [label]) (r ++ [v]) = r.
Proof.
  intros Hl. revert r. induction cols as [|c cols IH]; intros [|x r] H;
    try discriminate.
  - unfold drop_labels. simpl. now rewrite String.eqb_refl.
  - injection H as H. unfold drop_labels in *. simpl.
    destruct (String.eqb_spec c label) as [->|_]; [exfalso; apply Hl; now left|].
    simpl. f_equal. apply IH; [|assumption]. intros Hin. apply Hl. now right.
Qed.

Lemma filter_last (label : string) (cols : list string) :
  ~ In label cols ->
  filter (fun c => negb (String.eqb c label)) (cols ++ [label]) = cols.
Proof.
  intros Hl. induction cols as [|c cols IH]; simpl.
  - now rewrite String.eqb_refl.
  - destruct (String.eqb_spec c label) as [->|_]; [exfalso; apply Hl; now left|].
    simpl. f_equal. apply IH. intros Hin. apply Hl. now right.
Qed.

Section Solo.
Variable keys : list string.
Variables left right : DataFrame.

Hypothesis Hnl : NoDup (columns left).
Hypothesis Hnr : NoDup (columns right).
Hypothesis Hrl : Forall (fun r => length r = length (columns left)) (rows left).
Hypothesis Hrr : Forall (fun r => length r = length (columns right)) (rows right).
Hypothesis Hnk : NoDup keys.
Hypothesis Hkl : incl keys (columns left).
Hypothesis Hkr : incl keys (columns right).
Hypothesis Hres : forall c, In c reserved -> ~ In c (columns left).

Let hit (r1 r2 : list scalar) : bool :=
  tuple_eqb (select_row keys (columns left) r1) (select_row keys (columns right) r2).

(** The left join with the indicator, each row split into the left row
    and its indicator cell. *)
Let tagged (r1 : list scalar) : list (list scalar * scalar) :=
  match filter (hit r1) (rows right) with
  | [] => [(r1, SStr "left_only")]
  | ms => map (fun _ => (r1, SStr "both")) ms
  end.

Lemma merge_row_tagged (r1 : list scalar) :
  merge_row keys (columns left) keys Left true
            (map (select_row keys (columns right)) (rows right)) r1
  = map (fun q => fst q ++ [snd q]) (tagged r1).
Proof.
  unfold merge_row, matches, tagged.
  assert (E : filter (fun r2 => tuple_eqb (select_row keys (columns left) r1)
                                          (select_row keys keys r2))
                     (map (select_row keys (columns right)) (rows right))
              = map (select_row keys (columns right)) (filter (hit r1) (rows right))).
  { rewrite Forall_forall in Hrr.
    induction (rows right) as [|r2 rs IH]; [reflexivity|]. simpl.
    rewrite select_row_self;
      [| assumption | apply length_select_row; auto; apply Hrr; now left].
    fold (hit r1 r2). rewrite IH by (intros x Hx; apply Hrr; now right).
    now destruct (hit r1 r2). }
  rewrite E. rewrite filter_notin_self.
  destruct (filter (hit r1) (rows right)) as [|r2 ms]; [reflexivity|].
  cbn [map fst snd]. rewrite !drop_labels_all. f_equal.
  rewrite !map_map. apply map_ext. intros a. now rewrite drop_labels_all.
Qed.

Lemma tagged_left_only (r1 : list scalar) :
  map fst (filter (fun q => py_eq (snd q) (SStr "left_only") && true) (tagged r1))
  = if negb (existsb (hit r1) (rows right)) then [r1] else [].
Proof.
  unfold tagged. rewrite existsb_filter_nil.
  destruct (filter (hit r1) (rows right)) as [|r2 ms]; [reflexivity|].
  cbn [negb]. generalize (r2 :: ms).
  induction l as [|a l IH]; [reflexivity | exact IH].
Qed.

Lemma In_tagged (q : list scalar * scalar) (l : list (list scalar)) :
  In q (flat_map tagged l) -> In (fst q) l.
Proof.
  rewrite in_flat_map. intros [r1 [H1 Hq]]. unfold tagged in Hq.
  destruct (filter (hit r1) (rows right)) as [|r2 ms].
  - destruct Hq as [<-|[]]. assumption.
  - apply in_map_iff in Hq. destruct Hq as [x [<- _]]. assumption.
Qed.

Lemma tagged_rows (l : list (list scalar)) :
  map fst (filter (fun q => py_eq (snd q) (SStr "left_only") && true)
                  (flat_map tagged l))
  = filter (fun r1 => negb (existsb (hit r1) (rows right))) l.
Proof.
  induction l as [|r1 l IH]; [reflexivity|]. cbn [flat_map filter].
  rewrite filter_app, map_app, tagged_left_only, IH.
  now destruct (negb (existsb (hit r1) (rows right))).
Qed.

Lemma solo_ok :
  solo keys left right
  = Ok (mkDF (columns left)
             (filter (fun r1 => negb (existsb (hit r1) (rows right))) (rows left))).
Proof.
  unfold solo. rewrite getitem_ok by assumption. cbn [bind].
  unfold merge. cbn [columns rows fst snd].
  assert (E0 : forallb (fun k => mem k (columns left) && mem k keys) keys = true).
  { apply forallb_forall. intros k Hk. apply andb_true_iff.
    split; apply mem_In; auto. }
  rewrite E0, filter_notin_self. cbn [negb map].
  assert (E1 : map (renamer (filter (fun c => mem c []) (columns left)) "_x")
                   (columns left) = columns left).
  { transitivity (map (fun x : string => x) (columns left)); [|apply map_id].
    apply map_ext. intros x.
    unfold renamer. replace (mem x _) with false; [reflexivity|].
    symmetry. apply mem_not_In. rewrite filter_In. simpl. intros [_ H].
    discriminate. }
  rewrite E1. rewrite (suffix_dups_NoDup _ _ Hnl).
  change (suffix_dups [] []) with false. cbn [orb andb].
  assert (E2 : existsb (fun c => mem c (columns left ++ keys)) reserved = false).
  { apply not_true_is_false. intros H. apply existsb_exists in H.
    destruct H as [c [Hc H]]. apply mem_In in H. apply in_app_or in H.
    destruct H as [H|H]; [|apply Hkl in H]; now apply (Hres c Hc). }
  unfold reserved in E2. rewrite E2. cbn [bind app].
  assert (Hm : ~ In "_merge" (columns left))
    by (apply Hres; simpl; tauto).
  assert (Hn' : NoDup (columns left ++ ["_merge"])).
  { apply NoDup_app; [assumption | repeat constructor; intros [] |].
    intros a Ha [<-|[]]. contradiction. }
  assert (Em : flat_map (merge_row keys (columns left) keys Left true
                           (map (select_row keys (columns right)) (rows right)))
                        (rows left)
               = map (fun q => fst q ++ [snd q]) (flat_map tagged (rows left))).
  { generalize (rows left). induction l as [|r1 rs IH]; [reflexivity|].
    cbn [flat_map]. now rewrite map_app, merge_row_tagged, IH. }
  rewrite Em.
  assert (Hq : forall q, In q (flat_map tagged (rows left)) ->
                         length (fst q) = length (columns left)).
  { intros q Hq. rewrite Forall_forall in Hrl. apply Hrl.
    now apply In_tagged. }
  rewrite getitem_ok; cbn [columns rows]; [|assumption|].
  2:{ intros x [<-|[]]. apply in_or_app. right. now left. }
  cbn [bind columns rows]. rewrite !map_map.
  rewrite (map_ext_in _ (fun q => [snd q])).
  2:{ intros q Hin. unfold select_row. cbn [flat_map]. rewrite app_nil_r.
      rewrite cells_at_app by (symmetry; now apply Hq).
      rewrite cells_at_none.
      - unfold cells_at. simpl. reflexivity.
      - intros x Hx. apply String.eqb_neq. congruence. }
  unfold eq_scalar, all_axis1. cbn [columns rows]. rewrite !map_map.
  cbn [map forallb]. rewrite mask_rows_map.
  unfold drop. cbn [columns rows].
  rewrite (proj2 (mem_In "_merge" _)) by (apply in_or_app; right; now left).
  rewrite filter_last by assumption. f_equal. f_equal.
  rewrite map_map, <- tagged_rows. apply map_ext_in.
  intros q Hin. apply filter_In in Hin. apply drop_last; [assumption|].
  apply Hq. tauto.
Qed.
End Solo.

(** ** The steps of [main] on valid input *)

Lemma check_keys_ok (keys : list string) (df_v1 df_v2 : DataFrame) :
  incl keys (columns df_v1) -> incl keys (columns df_v2) ->
  check_keys keys df_v1 df_v2 = Ok tt.
Proof.
  induction keys as [|k keys IH]; intros H1 H2; [reflexivity|]. simpl.
  rewrite (proj2 (mem_In k _) (H1 k (or_introl eq_refl))).
  rewrite (proj2 (mem_In k _) (H2 k (or_introl eq_refl))). simpl.
  apply IH; intros x Hx; [apply H1 | apply H2]; now right.
Qed.

Lemma insert_at_app {A : Type} (x : A) (a b : list A) :
  insert_at (length a) x (a ++ b) = a ++ x :: b.
Proof.
  unfold insert_at. induction a as [|y a IH]; [reflexivity|]. simpl.
  now rewrite IH.
Qed.

Lemma length_suffixed (s : string) (l : list string) :
  length (suffixed s l) = length l.
Proof. apply length_map. Qed.

Section Run.
Variable keys : list string.
Variables df_v1 df_v2 : DataFrame.

Hypothesis Hn1 : NoDup (columns df_v1).
Hypothesis Hn2 : NoDup (columns df_v2).
Hypothesis Hr1 : Forall (fun r => length r = length (columns df_v1)) (rows df_v1).
Hypothesis Hr2 : Forall (fun r => length r = length (columns df_v2)) (rows df_v2).
Hypothesis Hnk : NoDup keys.
Hypothesis Hk1 : incl keys (columns df_v1).
Hypothesis Hk2 : incl keys (columns df_v2).
Hypothesis Hset : forall c, In c (columns df_v1) <-> In c (columns df_v2).
Hypothesis Hclash : forall k c, In k keys -> In c (cols_to_compare keys df_v1) ->
  k <> (c ++ "_v1")%string /\ k <> (c ++ "_v2")%string.
Hypothesis Hdc : ~ In "diff_cols" keys.
Hypothesis Hres : forall c, In c reserved -> ~ In c (columns df_v1).

Let cmp := cols_to_compare keys df_v1.
Let rcols := filter (fun c => negb (mem c keys)) (columns df_v2).
Let rn1 := fun x : string => if mem x keys then x else (x ++ "_v1")%string.
Let merged_columns := map rn1 (columns df_v1) ++ suffixed "_v2" rcols ++ [].
Let joined (p : list scalar * list scalar) : list scalar :=
  fst p ++ drop_labels keys (columns df_v2) (snd p) ++ [].
Let pairs := aligned_pairs keys df_v1 df_v2.

Lemma In_cmp (c : string) : In c cmp <-> In c (columns df_v1) /\ ~ In c keys.
Proof.
  unfold cmp, cols_to_compare. rewrite filter_In, negb_true_iff, mem_not_In.
  reflexivity.
Qed.

Lemma In_rcols (c : string) : In c rcols <-> In c (columns df_v1) /\ ~ In c keys.
Proof.
  unfold rcols. rewrite filter_In, negb_true_iff, mem_not_In, Hset.
  reflexivity.
Qed.

Lemma rn1_inj (x y : string) :
  In x (columns df_v1) -> In y (columns df_v1) -> rn1 x = rn1 y -> x = y.
Proof.
  intros Hx Hy. unfold rn1.
  destruct (mem x keys) eqn:Ex, (mem y keys) eqn:Ey; intros E.
  - assumption.
  - exfalso. apply mem_In in Ex. apply mem_not_In in Ey.
    apply (proj1 (Hclash x y Ex (proj2 (In_cmp y) (conj Hy Ey)))). assumption.
  - exfalso. apply mem_In in Ey. apply mem_not_In in Ex.
    apply (proj1 (Hclash y x Ey (proj2 (In_cmp x) (conj Hx Ex)))). now symmetry.
  - now apply suffix_inj in E.
Qed.

Lemma NoDup_llabels : NoDup (map rn1 (columns df_v1)).
Proof.
  apply NoDup_map_NoDup_ForallPairs; [|assumption].
  intros x y Hx Hy. now apply rn1_inj.
Qed.

Lemma NoDup_rlabels : NoDup (suffixed "_v2" rcols).
Proof.
  unfold suffixed. apply NoDup_map_NoDup_ForallPairs.
  - intros x y _ _ E. now apply suffix_inj in E.
  - unfold rcols. now apply NoDup_filter.
Qed.

Lemma old_row_length (r1 : list scalar) :
  In r1 (old_rows keys df_v1) -> length r1 = length (columns df_v1).
Proof.
  intros H. pose proof (rows_astype_keys_length keys df_v1 Hr1) as F.
  rewrite Forall_forall in F. now apply F.
Qed.

Lemma new_row_length (r2 : list scalar) :
  In r2 (new_rows keys df_v2) -> length r2 = length (columns df_v2).
Proof.
  intros H. pose proof (rows_astype_keys_length keys df_v2 Hr2) as F.
  rewrite Forall_forall in F. now apply F.
Qed.

Lemma In_pairs (p : list scalar * list scalar) :
  In p pairs ->
  In (fst p) (old_rows keys df_v1) /\ In (snd p) (new_rows keys df_v2).
Proof.
  unfold pairs, aligned_pairs. rewrite in_flat_map.
  intros [r1 [H1 H]]. apply in_map_iff in H. destruct H as [r2 [<- H2]].
  apply filter_In in H2. simpl. tauto.
Qed.

(** The inner join of the two frames. *)
Lemma merge_inner_ok :
  merge (astype_keys keys df_v1) (astype_keys keys df_v2) keys Inner
        ("_v1", "_v2") false
  = Ok (mkDF merged_columns (map joined pairs)).
Proof.
  unfold merge. rewrite !columns_astype_keys.
  assert (E0 : forallb (fun k => mem k (columns df_v1) && mem k (columns df_v2)) keys = true).
  { apply forallb_forall. intros k Hk. apply andb_true_iff.
    split; apply mem_In; auto. }
  rewrite E0. cbn [negb fst snd andb]. fold rcols.
  assert (E1 : map (renamer (filter (fun c => mem c rcols) (columns df_v1)) "_v1")
                   (columns df_v1) = map rn1 (columns df_v1)).
  { apply map_ext_in. intros x Hx. unfold renamer, rn1.
    destruct (mem x keys) eqn:Ex.
    - replace (mem x _) with false; [reflexivity|]. symmetry.
      apply mem_not_In. rewrite filter_In, mem_In, In_rcols.
      apply mem_In in Ex. tauto.
    - replace (mem x _) with true; [reflexivity|]. symmetry.
      apply mem_In. rewrite filter_In, mem_In, In_rcols.
      apply mem_not_In in Ex. tauto. }
  assert (E2 : map (renamer (filter (fun c => mem c rcols) (columns df_v1)) "_v2")
                   rcols = suffixed "_v2" rcols).
  { apply map_ext_in. intros x Hx. unfold renamer.
    replace (mem x _) with true; [reflexivity|]. symmetry.
    apply mem_In. rewrite filter_In, mem_In. split; [|assumption].
    now apply In_rcols in Hx. }
  rewrite E1, E2.
  rewrite (suffix_dups_NoDup _ _ NoDup_llabels).
  rewrite (suffix_dups_NoDup _ _ NoDup_rlabels). cbn [orb].
  f_equal. f_equal. unfold pairs, aligned_pairs, joined.
  rewrite <- (flat_map_pairs
    (fun r1 => filter (same_key keys df_v1 df_v2 r1) (new_rows keys df_v2))
    (fun r1 r2 => r1 ++ drop_labels keys (columns df_v2) r2 ++ [])).
  apply flat_map_ext. intros r1. unfold merge_row, matches.
  change (filter _ (rows (astype_keys keys df_v2)))
    with (filter (same_key keys df_v1 df_v2 r1) (new_rows keys df_v2)).
  generalize (filter (same_key keys df_v1 df_v2 r1) (new_rows keys df_v2)).
  now intros [|r2 ms].
Qed.

Lemma length_llabels_row (r1 : list scalar) :
  In r1 (old_rows keys df_v1) -> length (map rn1 (columns df_v1)) = length r1.
Proof. intros H. rewrite length_map. symmetry. now apply old_row_length. Qed.

(** The cell of the merged row under a key is the old row's. *)
Lemma key_cell (p : list scalar * list scalar) (k : string) :
  In p pairs -> In k keys ->
  cells_at k merged_columns (joined p) = cells_at k (columns df_v1) (fst p).
Proof.
  intros Hp Hk. destruct (In_pairs p Hp) as [H1 H2].
  unfold merged_columns, joined. rewrite !app_nil_r.
  rewrite cells_at_app by now apply length_llabels_row.
  rewrite (cells_at_map rn1 k k).
  - rewrite (cells_at_none k (suffixed "_v2" rcols)); [apply app_nil_r|].
    intros x Hx. apply String.eqb_neq. intros ->.
    apply in_map_iff in Hx. destruct Hx as [c [E Hc]].
    apply In_rcols in Hc.
    apply (proj2 (Hclash k c Hk (proj2 (In_cmp c) Hc))). now symmetry.
  - intros x Hx. unfold rn1. destruct (mem x keys) eqn:Ex; [reflexivity|].
    apply mem_not_In in Ex.
    destruct (String.eqb_spec (x ++ "_v1") k) as [E|_];
      destruct (String.eqb_spec x k) as [E'|_]; try reflexivity; try congruence.
    exfalso. apply (proj1 (Hclash k x Hk (proj2 (In_cmp x) (conj Hx Ex)))).
    now symmetry.
Qed.

(** The cell under a suffixed compared column is the old row's cell for
    [_v1] and the new row's cell for [_v2]. *)
Lemma left_cell (p : list scalar * list scalar) (c : string) :
  In p pairs -> In c cmp ->
  cells_at (c ++ "_v1") merged_columns (joined p)
  = cells_at c (columns df_v1) (fst p).
Proof.
  intros Hp Hc. destruct (In_pairs p Hp) as [H1 H2].
  unfold merged_columns, joined. rewrite !app_nil_r.
  rewrite cells_at_app by now apply length_llabels_row.
  rewrite (cells_at_map rn1 c (c ++ "_v1")).
  - rewrite (cells_at_none (c ++ "_v1") (suffixed "_v2" rcols));
      [apply app_nil_r|].
    intros x Hx. apply String.eqb_neq. intros ->.
    apply in_map_iff in Hx. destruct Hx as [y [E _]].
    symmetry in E. now apply v1_not_v2 in E.
  - intros x Hx. unfold rn1. apply In_cmp in Hc. destruct Hc as [Hc Hck].
    destruct (mem x keys) eqn:Ex.
    + apply mem_In in Ex.
      destruct (String.eqb_spec x (c ++ "_v1")) as [E|_];
        destruct (String.eqb_spec x c) as [E'|_]; try reflexivity; try congruence.
      exfalso. now apply (proj1 (Hclash x c Ex (proj2 (In_cmp c) (conj Hc Hck)))).
    + destruct (String.eqb_spec (x ++ "_v1") (c ++ "_v1")) as [E|E];
        destruct (String.eqb_spec x c) as [E'|E']; try reflexivity.
      * apply suffix_inj in E. contradiction.
      * subst. contradiction.
Qed.

Lemma right_cell (p : list scalar * list scalar) (c : string) :
  In p pairs -> In c cmp ->
  cells_at (c ++ "_v2") merged_columns (joined p)
  = cells_at c (columns df_v2) (snd p).
Proof.
  intros Hp Hc. destruct (In_pairs p Hp) as [H1 H2].
  unfold merged_columns, joined. rewrite !app_nil_r.
  rewrite cells_at_app by now apply length_llabels_row.
  rewrite cells_at_none.
  - simpl. unfold suffixed.
    rewrite (cells_at_map (fun x => (x ++ "_v2")%string) c (c ++ "_v2")).
    + unfold rcols. apply cells_at_drop. apply mem_not_In.
      now apply In_cmp in Hc.
    + intros x _.
      destruct (String.eqb_spec (x ++ "_v2") (c ++ "_v2")) as [E|E];
        destruct (String.eqb_spec x c) as [E'|E']; try reflexivity.
      * apply suffix_inj in E. contradiction.
      * subst. contradiction.
  - intros x Hx. apply String.eqb_neq. intros ->.
    apply in_map_iff in Hx. destruct Hx as [y [E Hy]]. unfold rn1 in E.
    destruct (mem y keys) eqn:Ey.
    + apply mem_In in Ey. subst y.
      now apply (proj2 (Hclash _ c Ey Hc)).
    + now apply v1_not_v2 in E.
Qed.

Lemma select_row_map (g : string -> string) (names cols cols' : list string)
  (row row' : list scalar) :
  (forall c, In c names -> cells_at (g c) cols' row' = cells_at c cols row) ->
  select_row (map g names) cols' row' = select_row names cols row.
Proof.
  intros H. induction names as [|c names IH]; [reflexivity|].
  unfold select_row in *. simpl. rewrite H by now left.
  f_equal. apply IH. intros x Hx. apply H. now right.
Qed.

Lemma sel_keys (p : list scalar * list scalar) :
  In p pairs ->
  select_row keys merged_columns (joined p) = old_key keys df_v1 (fst p).
Proof.
  intros Hp. rewrite <- (map_id keys) at 1. apply select_row_map.
  intros k Hk. now apply key_cell.
Qed.

Lemma sel_left (p : list scalar * list scalar) :
  In p pairs ->
  select_row (suffixed "_v1" cmp) merged_columns (joined p)
  = old_side keys df_v1 p.
Proof. intros Hp. apply select_row_map. intros c Hc. now apply left_cell. Qed.

Lemma sel_right (p : list scalar * list scalar) :
  In p pairs ->
  select_row (suffixed "_v2" cmp) merged_columns (joined p)
  = new_side keys df_v1 df_v2 p.
Proof. intros Hp. apply select_row_map. intros c Hc. now apply right_cell. Qed.

Lemma NoDup_merged_columns : NoDup merged_columns.
Proof.
  unfold merged_columns. rewrite app_nil_r.
  apply NoDup_app; [apply NoDup_llabels | apply NoDup_rlabels |].
  intros x Hl Hr. apply in_map_iff in Hl, Hr.
  destruct Hl as [y [Ey Hy]], Hr as [z [Ez Hz]]. rewrite <- Ez in Ey.
  clear Ez. unfold rn1 in Ey.
  apply In_rcols in Hz. apply In_cmp in Hz.
  destruct (mem y keys) eqn:Eyk.
  - apply mem_In in Eyk. subst y. now apply (proj2 (Hclash _ z Eyk Hz)).
  - now apply v1_not_v2 in Ey.
Qed.

Lemma incl_keys_merged : incl keys merged_columns.
Proof.
  intros k Hk. unfold merged_columns. apply in_or_app. left.
  apply in_map_iff. exists k. split; [|now apply Hk1].
  unfold rn1. now rewrite (proj2 (mem_In k keys) Hk).
Qed.

Lemma incl_left_merged : incl (suffixed "_v1" cmp) merged_columns.
Proof.
  intros x Hx. apply in_map_iff in Hx. destruct Hx as [c [<- Hc]].
  apply In_cmp in Hc. unfold merged_columns. apply in_or_app. left.
  apply in_map_iff. exists c. split; [|tauto].
  unfold rn1. now rewrite (proj2 (mem_not_In c keys) (proj2 Hc)).
Qed.

Lemma incl_right_merged : incl (suffixed "_v2" cmp) merged_columns.
Proof.
  intros x Hx. apply in_map_iff in Hx. destruct Hx as [c [<- Hc]].
  apply In_cmp in Hc. unfold merged_columns. apply in_or_app. right.
  apply in_or_app. left. apply in_map_iff. exists c. split; [reflexivity|].
  now apply In_rcols.
Qed.

(** A selection of columns and rows of the merged frame. *)
Lemma loc_merged (P : list scalar * list scalar -> bool) (names : list string)
  (f : list scalar * list scalar -> list scalar) :
  incl names merged_columns ->
  (forall p, In p pairs -> select_row names merged_columns (joined p) = f p) ->
  loc (map P pairs) names (mkDF merged_columns (map joined pairs))
  = Ok (mkDF names (map f (filter P pairs))).
Proof.
  intros Hi Hf. unfold loc.
  rewrite getitem_ok by (simpl; auto using NoDup_merged_columns).
  simpl. rewrite map_map.
  rewrite (map_ext_in _ f) by assumption.
  now rewrite mask_rows_map.
Qed.

Lemma getitem_merged (names : list string)
  (f : list scalar * list scalar -> list scalar) :
  incl names merged_columns ->
  (forall p, In p pairs -> select_row names merged_columns (joined p) = f p) ->
  getitem names (mkDF merged_columns (map joined pairs))
  = Ok (mkDF names (map f pairs)).
Proof.
  intros Hi Hf.
  rewrite getitem_ok by (simpl; auto using NoDup_merged_columns).
  simpl. rewrite map_map. now rewrite (map_ext_in _ f) by assumption.
Qed.

Lemma length_keys_cmp : length keys + length cmp = length (columns df_v1).
Proof.
  assert (E : length (filter (fun c => mem c keys) (columns df_v1)) = length keys).
  { apply Nat.le_antisymm; apply NoDup_incl_length.
    - now apply NoDup_filter.
    - intros x Hx. apply filter_In in Hx. now apply mem_In.
    - assumption.
    - intros x Hx. apply filter_In. split; [now apply Hk1 | now apply mem_In]. }
  rewrite <- E. unfold cmp, cols_to_compare.
  generalize (columns df_v1). induction l as [|c l IH]; [reflexivity|].
  simpl. destruct (mem c keys); simpl; lia.
Qed.

Lemma length_old_key (p : list scalar * list scalar) :
  In p pairs -> length (old_key keys df_v1 (fst p)) = length keys.
Proof.
  intros Hp. apply length_select_row; auto.
  apply old_row_length. now apply In_pairs.
Qed.

Lemma pair_equal_false_cmp (p : list scalar * list scalar) :
  pair_equal keys df_v1 df_v2 p = false -> cmp <> [].
Proof.
  unfold pair_equal, old_side. fold cmp. intros H E. rewrite E in H.
  discriminate.
Qed.

Lemma solo_v1_ok :
  solo keys (astype_keys keys df_v1) (astype_keys keys df_v2)
  = Ok (mkDF (columns df_v1) (only_old keys df_v1 df_v2)).
Proof.
  rewrite solo_ok; rewrite ?columns_astype_keys; auto.
  - now apply rows_astype_keys_length.
  - now apply rows_astype_keys_length.
Qed.

Lemma solo_v2_ok :
  solo keys (astype_keys keys df_v2) (astype_keys keys df_v1)
  = Ok (mkDF (columns df_v2) (only_new keys df_v1 df_v2)).
Proof.
  rewrite solo_ok; rewrite ?columns_astype_keys; auto.
  - f_equal. f_equal. unfold only_new. apply filter_ext. intros r2. f_equal.
    unfold old_rows. generalize (rows (astype_keys keys df_v1)).
    induction l as [|r1 l IH]; [reflexivity|]. simpl. rewrite IH. f_equal.
    unfold same_key, old_key, new_key. apply tuple_eqb_sym.
  - now apply rows_astype_keys_length.
  - now apply rows_astype_keys_length.
  - intros c Hc Hin. apply Hset in Hin. now apply (Hres c Hc).
Qed.

(** [main] returns the frames of the row-wise reading. *)
Lemma main_rows_run : main keys df_v1 df_v2 = Ok (rowwise keys df_v1 df_v2).
Proof.
  unfold main. rewrite check_keys_ok by assumption. cbn [bind].
  unfold validate_columns. rewrite (proj2 (set_ne_false _ _) Hset). cbn [bind].
  rewrite merge_inner_ok. cbn [bind].
  replace (cols_to_compare keys (astype_keys keys df_v1)) with cmp
    by (unfold cmp, cols_to_compare; now rewrite columns_astype_keys).
  rewrite (getitem_merged (suffixed "_v1" cmp) (old_side keys df_v1))
    by auto using incl_left_merged, sel_left.
  cbn [bind].
  rewrite (getitem_merged (suffixed "_v2" cmp) (new_side keys df_v1 df_v2))
    by auto using incl_right_merged, sel_right.
  cbn [bind]. unfold eq_values, cmp_values, len. cbn [columns rows].
  unfold suffixed at 1 2. rewrite !length_map, !Nat.eqb_refl. cbn [andb bind].
  rewrite map2_map. unfold all_axis1. rewrite !map_map.
  change (fun x => forallb (fun b : bool => b)
                     (map2 py_eq (old_side keys df_v1 x) (new_side keys df_v1 df_v2 x)))
    with (pair_equal keys df_v1 df_v2).
  rewrite (loc_merged (pair_equal keys df_v1 df_v2) (keys ++ suffixed "_v1" cmp)
                      (identical_row keys df_v1)).
  2:{ apply incl_app; [apply incl_keys_merged | apply incl_left_merged]. }
  2:{ intros p Hp. rewrite select_row_app, sel_keys, sel_left by assumption.
      reflexivity. }
  cbn [bind]. unfold set_columns. cbn [columns rows].
  rewrite columns_astype_keys.
  assert (El : (length (columns df_v1) =? length (keys ++ suffixed "_v1" cmp))%nat = true).
  { apply Nat.eqb_eq. unfold suffixed. rewrite length_app, length_map.
    symmetry. apply length_keys_cmp. }
  rewrite El. cbn [bind].
  rewrite (loc_merged _
             (keys ++ suffixed "_v1" cmp ++ suffixed "_v2" cmp)
             (fun p => old_key keys df_v1 (fst p)
                       ++ old_side keys df_v1 p ++ new_side keys df_v1 df_v2 p)).
  2:{ apply incl_app; [apply incl_keys_merged|].
      apply incl_app; [apply incl_left_merged | apply incl_right_merged]. }
  2:{ intros p Hp.
      rewrite !select_row_app, sel_keys, sel_left, sel_right by assumption.
      reflexivity. }
  cbn [bind]. rewrite solo_v1_ok, solo_v2_ok. cbn [bind].
  rewrite (loc_merged _ (suffixed "_v1" cmp) (old_side keys df_v1))
    by auto using incl_left_merged, sel_left.
  rewrite (loc_merged _ (suffixed "_v2" cmp) (new_side keys df_v1 df_v2))
    by auto using incl_right_merged, sel_right.
  cbn [bind]. unfold ne_values, cmp_values, len. cbn [columns rows].
  rewrite !length_suffixed, !length_map, !Nat.eqb_refl. cbn [andb bind].
  rewrite map2_map. unfold diff_cols_list. rewrite map_map.
  unfold insert, len. cbn [columns rows].
  assert (Em : mem "diff_cols" (keys ++ suffixed "_v1" cmp ++ suffixed "_v2" cmp) = false).
  { apply mem_not_In. intros H. apply in_app_or in H. destruct H as [H|H];
      [contradiction|].
    apply in_app_or in H.
    destruct H as [H|H]; apply in_map_iff in H; destruct H as [c [E _]];
      apply diff_cols_not_suffixed in E; auto. }
  rewrite Em.
  assert (Ep : (length (keys ++ suffixed "_v1" cmp ++ suffixed "_v2" cmp)
                <? length keys)%nat = false)
    by (apply Nat.ltb_ge; rewrite length_app; lia).
  rewrite Ep, !length_map, Nat.eqb_refl. cbn [negb].
  rewrite map2_map, insert_at_app.
  change (filter (fun x => negb (forallb (fun b : bool => b)
            (map2 py_eq (old_side keys df_v1 x) (new_side keys df_v1 df_v2 x))))
            pairs)
    with (differing_pairs keys df_v1 df_v2).
  rewrite (map_ext_in
    (fun a => insert_at (length keys)
       (SStr (String.concat ","
          (diff_names cmp (map2 py_ne (old_side keys df_v1 a)
                                      (new_side keys df_v1 df_v2 a)))))
       (old_key keys df_v1 (fst a)
        ++ old_side keys df_v1 a ++ new_side keys df_v1 df_v2 a))
    (differing_row keys df_v1 df_v2)).
  2:{ intros p Hp. apply filter_In in Hp. destruct Hp as [Hp _].
      rewrite <- (length_old_key p Hp). apply insert_at_app. }
  unfold rowwise, identical_pairs, differing_columns. fold pairs. fold cmp.
  destruct (differing_pairs keys df_v1 df_v2) as [|p0 dps] eqn:Ed.
  - reflexivity.
  - assert (Hc : cmp <> []).
    { apply (pair_equal_false_cmp p0).
      assert (Hin : In p0 (differing_pairs keys df_v1 df_v2))
        by (rewrite Ed; now left).
      apply filter_In in Hin. now apply negb_true_iff. }
    assert (Ee : empty (mkDF (keys ++ suffixed "_v1" cmp ++ suffixed "_v2" cmp)
      (map (fun p => old_key keys df_v1 (fst p)
                     ++ old_side keys df_v1 p ++ new_side keys df_v1 df_v2 p)
           (p0 :: dps))) = false).
    { unfold empty. cbn [rows columns map].
      destruct (keys ++ suffixed "_v1" cmp ++ suffixed "_v2" cmp) eqn:Ek;
        [|reflexivity].
      apply app_eq_nil in Ek. destruct Ek as [_ Ek].
      apply app_eq_nil in Ek. destruct Ek as [Ek _].
      apply map_eq_nil in Ek. contradiction. }
    rewrite Ee. reflexivity.
Qed.

End Run.

Lemma wf_frame_spec (df : DataFrame) :
  wf_frame df = true ->
  NoDup (columns df)
  /\ Forall (fun r => length r = length (columns df)) (rows df).
Proof.
  unfold wf_frame. rewrite andb_true_iff, nodupb_NoDup, forallb_forall.
  intros [H1 H2]. split; [assumption|]. apply Forall_forall.
  intros r Hr. apply Nat.eqb_eq. now apply H2.
Qed.

(** On valid input [main] succeeds and returns the frames of the row-wise
    reading. *)
Lemma main_rows (keys : list string) (df_v1 df_v2 : DataFrame) :
  valid_input keys df_v1 df_v2 = true ->
  main keys df_v1 df_v2 = Ok (rowwise keys df_v1 df_v2).
Proof.
  unfold valid_input. rewrite !andb_true_iff.
  intros [[[[[[[W1 W2] Hnk] Hk] Hs] Hc] Hd] Hr].
  apply wf_frame_spec in W1, W2. destruct W1 as [Hn1 Hr1], W2 as [Hn2 Hr2].
  apply nodupb_NoDup in Hnk. rewrite forallb_forall in Hk, Hc, Hr.
  apply negb_true_iff in Hs, Hd. apply mem_not_In in Hd.
  apply main_rows_run; try assumption.
  - intros k Hk'. apply Hk in Hk'. apply andb_true_iff in Hk'.
    now apply mem_In.
  - intros k Hk'. apply Hk in Hk'. apply andb_true_iff in Hk'.
    now apply mem_In.
  - now apply set_ne_false.
  - intros k c Hk' Hc'. apply Hc in Hk'. rewrite andb_true_iff in Hk'.
    rewrite !negb_true_iff, !mem_not_In in Hk'. destruct Hk' as [A B].
    split; intros ->; [apply A | apply B]; apply in_map_iff; now exists c.
  - intros c Hc'. apply Hr in Hc'. apply negb_true_iff in Hc'.
    now apply mem_not_In.
Qed.

(** ** The key cells after [astype_keys] *)

Lemma rows_astype_keys (keys : list string) (df : DataFrame) :
  rows (astype_keys keys df) = map (astype_row keys (columns df)) (rows df).
Proof.
  unfold astype_keys, astype_row. revert df.
  induction keys as [|k keys IH]; intros df; simpl.
  - symmetry. apply map_id.
  - rewrite IH. simpl. now rewrite map_map.
Qed.

Lemma astype_str_row_cons (k x : string) (cols : list string) (v : scalar)
  (row : list scalar) :
  astype_str_row k (x :: cols) (v :: row)
  = (if String.eqb x k then SStr (py_str v) else v) :: astype_str_row k cols row.
Proof. reflexivity. Qed.

Lemma cells_at_astype_str_row (c k : string) (cols : list string) (row : list scalar) :
  cells_at c cols (astype_str_row k cols row)
  = if String.eqb c k then map (fun v => SStr (py_str v)) (cells_at c cols row)
    else cells_at c cols row.
Proof.
  revert row. induction cols as [|x cols IH]; intros row.
  - now destruct (String.eqb c k).
  - destruct row as [|v row].
    + unfold astype_str_row. simpl. rewrite !cells_at_nil_r.
      now destruct (String.eqb c k).
    + rewrite astype_str_row_cons, !cells_at_cons, IH.
      destruct (String.eqb_spec x c) as [->|Hxc];
        destruct (String.eqb_spec c k) as [->|Hck];
        rewrite ?String.eqb_refl; reflexivity.
Qed.

Lemma length_astype_row (keys cols : list string) (row : list scalar) :
  length row = length cols -> length (astype_row keys cols row) = length cols.
Proof.
  unfold astype_row. revert row. induction keys as [|k keys IH]; intros row H;
    [assumption|]. simpl. apply IH. now apply length_astype_str_row.
Qed.

Lemma cells_at_astype_row (c : string) (keys cols : list string) (row : list scalar) :
  cells_at c cols (astype_row keys cols row)
  = if mem c keys then map (fun v => SStr (py_str v)) (cells_at c cols row)
    else cells_at c cols row.
Proof.
  unfold astype_row. revert row. induction keys as [|k keys IH]; intros row;
    [reflexivity|]. simpl. rewrite IH, cells_at_astype_str_row.
  destruct (String.eqb c k), (mem c keys); try reflexivity.
  rewrite map_map. reflexivity.
Qed.

Lemma select_keys_astype_row (keys cols : list string) (row : list scalar) :
  select_row keys cols (astype_row keys cols row)
  = map (fun v => SStr (py_str v)) (select_row keys cols row).
Proof.
  unfold select_row. rewrite !flat_map_concat_map, concat_map, map_map.
  f_equal. apply map_ext_in. intros c Hc.
  now rewrite cells_at_astype_row, (proj2 (mem_In c keys) Hc).
Qed.

Lemma select_other_astype_row (names keys cols : list string) (row : list scalar) :
  (forall c, In c names -> ~ In c keys) ->
  select_row names cols (astype_row keys cols row) = select_row names cols row.
Proof.
  intros H. induction names as [|c names IH]; [reflexivity|].
  unfold select_row in *. simpl.
  rewrite cells_at_astype_row, (proj2 (mem_not_In c keys) (H c (or_introl eq_refl))).
  f_equal. apply IH. intros x Hx. apply H. now right.
Qed.

(** ** Counting the rows of a join *)

Lemma filter_fst_pairs {A B : Type} (P : A -> bool) (a : A) (ms : list B) :
  filter (fun p : A * B => P (fst p)) (map (pair a) ms)
  = if P a then map (pair a) ms else [].
Proof.
  induction ms as [|b ms IH]; simpl; [now destruct (P a)|].
  rewrite IH. now destruct (P a).
Qed.

Section Counting.
Context {A B : Type}.
Variable R : A -> B -> bool.
Variable lb : list B.

Let join (la : list A) : list (A * B) :=
  flat_map (fun a => map (pair a) (filter (R a) lb)) la.

(** When every left element has at most one match, each left element is
    either joined once or unmatched. *)
Lemma count_pairs_fst (P : A -> bool) (la : list A) :
  (forall a, In a la -> length (filter (R a) lb) <= 1) ->
  length (filter (fun p => P (fst p)) (join la))
  + length (filter P (filter (fun a => negb (existsb (R a) lb)) la))
  = length (filter P la).
Proof.
  unfold join. induction la as [|a la IH]; intros H; [reflexivity|].
  cbn [flat_map filter]. rewrite filter_app, length_app, filter_fst_pairs.
  assert (Ha := H a (or_introl eq_refl)).
  specialize (IH (fun x Hx => H x (or_intror Hx))).
  rewrite existsb_filter_nil.
  destruct (filter (R a) lb) as [|b [|b' ms]]; cbn [negb filter];
    [| |simpl in Ha; lia]; destruct (P a); cbn [length map]; lia.
Qed.

Lemma length_join_cons (Q : B -> bool) (a : A) (la : list A) (l : list B) :
  length (filter (fun q : B * A => Q (fst q))
            (flat_map (fun b => map (pair b) (filter (fun a' => R a' b) (a :: la))) l))
  = length (filter Q (filter (R a) l))
    + length (filter (fun q : B * A => Q (fst q))
                (flat_map (fun b => map (pair b) (filter (fun a' => R a' b) la)) l)).
Proof.
  induction l as [|b l IH]; [reflexivity|].
  cbn [flat_map]. rewrite !filter_app, !length_app, IH.
  rewrite !filter_fst_pairs. cbn [filter].
  destruct (R a b); cbn [filter]; destruct (Q b); cbn [map length]; lia.
Qed.

(** The pairs counted from the right. *)
Lemma count_pairs_swap (Q : B -> bool) (la : list A) :
  length (filter (fun p => Q (snd p)) (join la))
  = length (filter (fun q : B * A => Q (fst q))
              (flat_map (fun b => map (pair b) (filter (fun a => R a b) la)) lb)).
Proof.
  unfold join. induction la as [|a la IH].
  - simpl. induction lb as [|b l IHl]; [reflexivity | exact IHl].
  - rewrite length_join_cons, <- IH. cbn [flat_map].
    rewrite filter_app, length_app. f_equal.
    generalize (filter (R a) lb). induction l as [|b l IHl]; [reflexivity|].
    simpl. destruct (Q b); simpl; now rewrite IHl.
Qed.
End Counting.

Lemma count_pairs_snd {A B : Type} (R : A -> B -> bool) (Q : B -> bool)
  (la : list A) (lb : list B) :
  (forall b, In b lb -> length (filter (fun a => R a b) la) <= 1) ->
  length (filter (fun p => Q (snd p))
            (flat_map (fun a => map (pair a) (filter (R a) lb)) la))
  + length (filter Q (filter (fun b => negb (existsb (fun a => R a b) la)) lb))
  = length (filter Q lb).
Proof.
  intros H. rewrite count_pairs_swap.
  apply (count_pairs_fst (fun b a => R a b) la Q lb H).
Qed.

Lemma filter_split_length {A : Type} (P E : A -> bool) (l : list A) :
  length (filter P (filter E l)) + length (filter P (filter (fun x => negb (E x)) l))
  = length (filter P l).
Proof.
  induction l as [|a l IH]; [reflexivity|]. simpl.
  destruct (E a); simpl; destruct (P a); simpl; lia.
Qed.

Lemma filter_true {A : Type} (l : list A) : filter (fun _ => true) l = l.
Proof. induction l as [|a l IH]; [reflexivity|]. simpl. now rewrite IH. Qed.

Lemma texts_eqb_eq (t1 t2 : list string) : texts_eqb t1 t2 = true <-> t1 = t2.
Proof.
  revert t2. induction t1 as [|a t1 IH]; intros [|b t2]; simpl;
    try (split; [discriminate | discriminate]); [tauto|].
  rewrite andb_true_iff, String.eqb_eq, IH. split.
  - intros [-> ->]. reflexivity.
  - intros H. injection H. auto.
Qed.

Lemma texts_eqb_refl (t : list string) : texts_eqb t t = true.
Proof. now apply texts_eqb_eq. Qed.

(** Among rows with distinct keys, a key selects at most one row, and the
    key of a row of the list selects exactly one. *)
Lemma count_distinct_le (A : Type) (f : A -> list string) (kt : list string)
  (l : list A) :
  NoDup (map f l) -> length (filter (fun x => texts_eqb (f x) kt) l) <= 1.
Proof.
  induction l as [|a l IH]; intros H; [simpl; lia|]. simpl in *.
  inversion H as [|? ? Hn Hl]; subst. specialize (IH Hl).
  destruct (texts_eqb (f a) kt) eqn:E; [|assumption].
  apply texts_eqb_eq in E. subst kt. simpl.
  replace (filter (fun x => texts_eqb (f x) (f a)) l) with (@nil A); [simpl; lia|].
  symmetry. clear IH H Hl. induction l as [|b l IHl]; [reflexivity|]. simpl.
  destruct (texts_eqb (f b) (f a)) eqn:E.
  - exfalso. apply texts_eqb_eq in E. apply Hn. left. assumption.
  - apply IHl. intros Hin. apply Hn. now right.
Qed.

Lemma count_distinct_one (A : Type) (f : A -> list string) (a : A) (l : list A) :
  NoDup (map f l) -> In a l ->
  length (filter (fun x => texts_eqb (f x) (f a)) l) = 1.
Proof.
  intros Hn Hin. pose proof (count_distinct_le A f (f a) l Hn) as Hle.
  assert (In a (filter (fun x => texts_eqb (f x) (f a)) l))
    by (apply filter_In; split; [assumption | apply texts_eqb_refl]).
  destruct (filter (fun x => texts_eqb (f x) (f a)) l) as [|x [|y t]];
    simpl in *; [contradiction | reflexivity | lia].
Qed.

Lemma tuple_eqb_texts (t1 t2 : list string) :
  tuple_eqb (map SStr t1) (map SStr t2) = texts_eqb t1 t2.
Proof.
  revert t2. induction t1 as [|a t1 IH]; intros [|b t2]; simpl; try reflexivity.
  now rewrite IH.
Qed.

Lemma valid_input_facts (keys : list string) (df_v1 df_v2 : DataFrame) :
  valid_input keys df_v1 df_v2 = true ->
  NoDup (columns df_v1) /\ NoDup (columns df_v2)
  /\ Forall (fun r => length r = length (columns df_v1)) (rows df_v1)
  /\ Forall (fun r => length r = length (columns df_v2)) (rows df_v2)
  /\ NoDup keys /\ incl keys (columns df_v1) /\ incl keys (columns df_v2)
  /\ (forall c, In c (columns df_v1) <-> In c (columns df_v2)).
Proof.
  unfold valid_input. rewrite !andb_true_iff.
  intros [[[[[[[W1 W2] Hnk] Hk] Hs] Hc] Hd] Hr].
  apply wf_frame_spec in W1, W2. destruct W1 as [Hn1 Hr1], W2 as [Hn2 Hr2].
  apply nodupb_NoDup in Hnk. rewrite forallb_forall in Hk.
  apply negb_true_iff in Hs.
  repeat match goal with |- _ /\ _ => split end; try assumption.
  - intros k Hk'. apply Hk in Hk'. apply andb_true_iff in Hk'. now apply mem_In.
  - intros k Hk'. apply Hk in Hk'. apply andb_true_iff in Hk'. now apply mem_In.
  - now apply set_ne_false.
Qed.

Lemma length_filter_map {A B : Type} (P : B -> bool) (f : A -> B) (l : list A) :
  length (filter P (map f l)) = length (filter (fun a => P (f a)) l).
Proof.
  induction l as [|a l IH]; [reflexivity|]. simpl.
  destruct (P (f a)); simpl; now rewrite IH.
Qed.

Lemma firstn_app_exact {A : Type} (a b : list A) : firstn (length a) (a ++ b) = a.
Proof. induction a as [|x a IH]; [reflexivity|]. simpl. now rewrite IH. Qed.

Lemma map_py_str_SStr (l : list scalar) :
  map py_str (map (fun v => SStr (py_str v)) l) = map py_str l.
Proof. rewrite map_map. reflexivity. Qed.

(** ** Every record goes to one frame *)

Section Partition.
Variable keys : list string.
Variables df_v1 df_v2 : DataFrame.

Hypothesis Hn1 : NoDup (columns df_v1).
Hypothesis Hn2 : NoDup (columns df_v2).
Hypothesis Hr1 : Forall (fun r => length r = length (columns df_v1)) (rows df_v1).
Hypothesis Hr2 : Forall (fun r => length r = length (columns df_v2)) (rows df_v2).
Hypothesis Hk1 : incl keys (columns df_v1).
Hypothesis Hk2 : incl keys (columns df_v2).

Let la := old_rows keys df_v1.
Let lb := new_rows keys df_v2.
Let ka (r1 : list scalar) := map py_str (old_key keys df_v1 r1).
Let kb (r2 : list scalar) := map py_str (new_key keys df_v2 r2).
Let pairs := aligned_pairs keys df_v1 df_v2.

Lemma old_rows_raw : la = map (astype_row keys (columns df_v1)) (rows df_v1).
Proof. apply rows_astype_keys. Qed.

Lemma new_rows_raw : lb = map (astype_row keys (columns df_v2)) (rows df_v2).
Proof. apply rows_astype_keys. Qed.

Lemma ka_raw (r : list scalar) :
  ka (astype_row keys (columns df_v1) r) = key_text keys (columns df_v1) r.
Proof.
  unfold ka, old_key, key_text. now rewrite select_keys_astype_row, map_py_str_SStr.
Qed.

Lemma kb_raw (r : list scalar) :
  kb (astype_row keys (columns df_v2) r) = key_text keys (columns df_v2) r.
Proof.
  unfold kb, new_key, key_text. now rewrite select_keys_astype_row, map_py_str_SStr.
Qed.

Lemma old_key_texts (r1 : list scalar) :
  In r1 la -> old_key keys df_v1 r1 = map SStr (ka r1).
Proof.
  rewrite old_rows_raw, in_map_iff. intros [r [<- _]].
  unfold ka, old_key. rewrite select_keys_astype_row, !map_map.
  apply map_ext. reflexivity.
Qed.

Lemma new_key_texts (r2 : list scalar) :
  In r2 lb -> new_key keys df_v2 r2 = map SStr (kb r2).
Proof.
  rewrite new_rows_raw, in_map_iff. intros [r [<- _]].
  unfold kb, new_key. rewrite select_keys_astype_row, !map_map.
  apply map_ext. reflexivity.
Qed.

Lemma same_key_texts (r1 r2 : list scalar) :
  In r1 la -> In r2 lb ->
  same_key keys df_v1 df_v2 r1 r2 = texts_eqb (ka r1) (kb r2).
Proof.
  intros H1 H2. unfold same_key.
  rewrite (old_key_texts r1 H1), (new_key_texts r2 H2). apply tuple_eqb_texts.
Qed.

Lemma map_ka_raw : map ka la = map (key_text keys (columns df_v1)) (rows df_v1).
Proof. rewrite old_rows_raw, map_map. apply map_ext. apply ka_raw. Qed.

Lemma map_kb_raw : map kb lb = map (key_text keys (columns df_v2)) (rows df_v2).
Proof. rewrite new_rows_raw, map_map. apply map_ext. apply kb_raw. Qed.

Lemma pairs_members (p : list scalar * list scalar) :
  In p pairs -> In (fst p) la /\ In (snd p) lb /\ ka (fst p) = kb (snd p).
Proof.
  unfold pairs, aligned_pairs. rewrite in_flat_map.
  intros [r1 [H1 H]]. apply in_map_iff in H. destruct H as [r2 [<- H2]].
  apply filter_In in H2. destruct H2 as [H2 E]. simpl.
  repeat split; try assumption.
  rewrite same_key_texts in E by assumption. now apply texts_eqb_eq.
Qed.

Lemma la_length (r1 : list scalar) : In r1 la -> length r1 = length (columns df_v1).
Proof.
  intros H. pose proof (rows_astype_keys_length keys df_v1 Hr1) as F.
  rewrite Forall_forall in F. now apply F.
Qed.

Lemma leading_identical (p : list scalar * list scalar) :
  In p pairs -> map py_str (leading keys (identical_row keys df_v1 p)) = ka (fst p).
Proof.
  intros Hp. apply pairs_members in Hp. destruct Hp as [H1 _].
  unfold leading, identical_row.
  rewrite <- (length_select_row keys (columns df_v1) (fst p)) by
    (auto; now apply la_length).
  fold (old_key keys df_v1 (fst p)). now rewrite firstn_app_exact.
Qed.

Lemma leading_differing (p : list scalar * list scalar) :
  In p pairs ->
  map py_str (leading keys (differing_row keys df_v1 df_v2 p)) = ka (fst p).
Proof.
  intros Hp. apply pairs_members in Hp. destruct Hp as [H1 _].
  unfold leading, differing_row.
  rewrite <- (length_select_row keys (columns df_v1) (fst p)) by
    (auto; now apply la_length).
  fold (old_key keys df_v1 (fst p)). now rewrite firstn_app_exact.
Qed.

(** The rows of [identicas] and of [diferentes] with a given key tuple
    are as many as the aligned pairs with it. *)
Lemma count_aligned (kt : list string) :
  count_key (leading keys) kt
            (map (identical_row keys df_v1) (identical_pairs keys df_v1 df_v2))
  + count_key (leading keys) kt
              (map (differing_row keys df_v1 df_v2) (differing_pairs keys df_v1 df_v2))
  = length (filter (fun p => texts_eqb (ka (fst p)) kt) pairs).
Proof.
  unfold count_key. rewrite !length_filter_map.
  rewrite <- (filter_split_length _ (pair_equal keys df_v1 df_v2) pairs).
  unfold identical_pairs, differing_pairs. fold pairs. f_equal; f_equal.
  - apply filter_ext_in. intros p Hp. apply filter_In in Hp.
    now rewrite leading_identical.
  - apply filter_ext_in. intros p Hp. apply filter_In in Hp.
    now rewrite leading_differing.
Qed.

Section Distinct.
Hypothesis Hd1 : NoDup (map (key_text keys (columns df_v1)) (rows df_v1)).
Hypothesis Hd2 : NoDup (map (key_text keys (columns df_v2)) (rows df_v2)).

Lemma old_matches_le (r1 : list scalar) :
  In r1 la -> length (filter (same_key keys df_v1 df_v2 r1) lb) <= 1.
Proof.
  intros H1.
  rewrite (filter_ext_in _ (fun r2 => texts_eqb (kb r2) (ka r1))).
  - apply count_distinct_le. now rewrite map_kb_raw.
  - intros r2 H2. rewrite same_key_texts by assumption.
    destruct (texts_eqb (ka r1) (kb r2)) eqn:E.
    + apply texts_eqb_eq in E. rewrite E. symmetry. apply texts_eqb_refl.
    + destruct (texts_eqb (kb r2) (ka r1)) eqn:E'; [|reflexivity].
      apply texts_eqb_eq in E'. rewrite E', texts_eqb_refl in E. discriminate.
Qed.

Lemma new_matches_le (r2 : list scalar) :
  In r2 lb ->
  length (filter (fun r1 => same_key keys df_v1 df_v2 r1 r2) la) <= 1.
Proof.
  intros H2.
  rewrite (filter_ext_in _ (fun r1 => texts_eqb (ka r1) (kb r2))).
  - apply count_distinct_le. now rewrite map_ka_raw.
  - intros r1 H1. now apply same_key_texts.
Qed.

Lemma old_total :
  length (rows df_v1)
  = length (identical_pairs keys df_v1 df_v2)
    + length (differing_pairs keys df_v1 df_v2)
    + length (only_old keys df_v1 df_v2).
Proof.
  pose proof (count_pairs_fst (same_key keys df_v1 df_v2) lb (fun _ => true) la
                              old_matches_le) as H.
  rewrite !filter_true in H.
  pose proof (filter_split_length (fun _ => true) (pair_equal keys df_v1 df_v2) pairs) as S.
  rewrite !filter_true in S.
  unfold la at 3 in H. unfold old_rows in H.
  rewrite length_rows_astype_keys in H.
  unfold identical_pairs, differing_pairs, only_old.
  subst pairs la lb. unfold aligned_pairs in *. lia.
Qed.

Lemma new_total :
  length (rows df_v2)
  = length (identical_pairs keys df_v1 df_v2)
    + length (differing_pairs keys df_v1 df_v2)
    + length (only_new keys df_v1 df_v2).
Proof.
  pose proof (count_pairs_snd (same_key keys df_v1 df_v2) (fun _ => true) la lb
                              new_matches_le) as H.
  rewrite !filter_true in H.
  pose proof (filter_split_length (fun _ => true) (pair_equal keys df_v1 df_v2) pairs) as S.
  rewrite !filter_true in S.
  unfold lb at 3 in H. unfold new_rows in H.
  rewrite length_rows_astype_keys in H.
  unfold identical_pairs, differing_pairs, only_new.
  subst pairs la lb. unfold aligned_pairs in *. lia.
Qed.

Lemma old_once (r : list scalar) :
  In r (rows df_v1) ->
  old_occurrences keys (rowwise keys df_v1 df_v2) (key_text keys (columns df_v1) r) = 1.
Proof.
  intros Hr. set (kt := key_text keys (columns df_v1) r).
  unfold old_occurrences, rowwise. cbn [identicas diferentes solo_v1 rows columns].
  rewrite count_aligned.
  pose proof (count_pairs_fst (same_key keys df_v1 df_v2) lb
                (fun r1 => texts_eqb (ka r1) kt) la old_matches_le) as H.
  transitivity (length (filter (fun r1 => texts_eqb (ka r1) kt) la));
    [rewrite <- H; reflexivity|].
  unfold kt. rewrite <- ka_raw.
  apply count_distinct_one.
  - now rewrite map_ka_raw.
  - rewrite old_rows_raw. now apply in_map.
Qed.

Lemma new_once (r : list scalar) :
  In r (rows df_v2) ->
  new_occurrences keys (rowwise keys df_v1 df_v2) (key_text keys (columns df_v2) r) = 1.
Proof.
  intros Hr. set (kt := key_text keys (columns df_v2) r).
  unfold new_occurrences, rowwise. cbn [identicas diferentes solo_v2 rows columns].
  rewrite count_aligned.
  pose proof (count_pairs_snd (same_key keys df_v1 df_v2)
                (fun r2 => texts_eqb (kb r2) kt) la lb new_matches_le) as H.
  rewrite (filter_ext_in (fun p => texts_eqb (ka (fst p)) kt)
                         (fun p => texts_eqb (kb (snd p)) kt)).
  2:{ intros p Hp. apply pairs_members in Hp. destruct Hp as [_ [_ E]].
      now rewrite E. }
  transitivity (length (filter (fun r2 => texts_eqb (kb r2) kt) lb));
    [rewrite <- H; reflexivity|].
  unfold kt. rewrite <- kb_raw.
  apply count_distinct_one.
  - now rewrite map_kb_raw.
  - rewrite new_rows_raw. now apply in_map.
Qed.
End Distinct.
End Partition.

(** ** The rows of the outputs, cell by cell *)

Lemma select_row_cells (names cols : list string) (row : list scalar) :
  NoDup cols -> incl names cols -> length row = length cols ->
  select_row names cols row = map (cell cols row) names.
Proof.
  intros Hn Hi Hl. induction names as [|c names IH]; [reflexivity|].
  unfold select_row in *. simpl. rewrite IH by (intros x Hx; apply Hi; now right).
  change (cell cols row c) with (hd SNaN (cells_at c cols row)).
  destruct (cells_at_single c cols row Hn (Hi c (or_introl eq_refl)) Hl) as [v ->].
  reflexivity.
Qed.

Lemma forallb_map_id {A : Type} (F : A -> bool) (l : list A) :
  forallb (fun b => b) (map F l) = forallb F l.
Proof. induction l as [|a l IH]; [reflexivity|]. simpl. now rewrite IH. Qed.

Lemma diff_names_map (F : string -> bool) (l : list string) :
  diff_names l (map F l) = filter F l.
Proof.
  induction l as [|c l IH]; [reflexivity|]. simpl. rewrite IH. reflexivity.
Qed.

Section Columns.
Variable keys : list string.
Variables df_v1 df_v2 : DataFrame.

Hypothesis Hn1 : NoDup (columns df_v1).
Hypothesis Hn2 : NoDup (columns df_v2).
Hypothesis Hr1 : Forall (fun r => length r = length (columns df_v1)) (rows df_v1).
Hypothesis Hr2 : Forall (fun r => length r = length (columns df_v2)) (rows df_v2).
Hypothesis Hk1 : incl keys (columns df_v1).
Hypothesis Hset : forall c, In c (columns df_v1) <-> In c (columns df_v2).

Let cmp := cols_to_compare keys df_v1.

Lemma incl_cmp_1 : incl cmp (columns df_v1).
Proof. intros c Hc. apply filter_In in Hc. tauto. Qed.

Lemma incl_cmp_2 : incl cmp (columns df_v2).
Proof. intros c Hc. apply Hset. now apply incl_cmp_1. Qed.

Lemma pair_rows_length (p : list scalar * list scalar) :
  In p (aligned_pairs keys df_v1 df_v2) ->
  length (fst p) = length (columns df_v1)
  /\ length (snd p) = length (columns df_v2).
Proof.
  unfold aligned_pairs. rewrite in_flat_map.
  intros [r1 [H1 H]]. apply in_map_iff in H. destruct H as [r2 [<- H2]].
  apply filter_In in H2. destruct H2 as [H2 _]. simpl.
  pose proof (rows_astype_keys_length keys df_v1 Hr1) as F1.
  pose proof (rows_astype_keys_length keys df_v2 Hr2) as F2.
  rewrite Forall_forall in F1, F2. split; [now apply F1 | now apply F2].
Qed.

Lemma old_key_cells (p : list scalar * list scalar) :
  In p (aligned_pairs keys df_v1 df_v2) ->
  old_key keys df_v1 (fst p) = map (cell (columns df_v1) (fst p)) keys.
Proof.
  intros Hp. apply select_row_cells; auto. now apply pair_rows_length.
Qed.

Lemma old_side_cells (p : list scalar * list scalar) :
  In p (aligned_pairs keys df_v1 df_v2) ->
  old_side keys df_v1 p = map (cell (columns df_v1) (fst p)) cmp.
Proof.
  intros Hp. apply select_row_cells; auto using incl_cmp_1.
  now apply pair_rows_length.
Qed.

Lemma new_side_cells (p : list scalar * list scalar) :
  In p (aligned_pairs keys df_v1 df_v2) ->
  new_side keys df_v1 df_v2 p = map (cell (columns df_v2) (snd p)) cmp.
Proof.
  intros Hp. apply select_row_cells; auto using incl_cmp_2.
  now apply pair_rows_length.
Qed.

(** A pair counts as identical exactly when its two rows compare equal on
    every compared column. *)
Lemma pair_equal_cells (p : list scalar * list scalar) :
  In p (aligned_pairs keys df_v1 df_v2) ->
  pair_equal keys df_v1 df_v2 p
  = forallb (fun c => py_eq (cell (columns df_v1) (fst p) c)
                            (cell (columns df_v2) (snd p) c)) cmp.
Proof.
  intros Hp. unfold pair_equal.
  rewrite old_side_cells, new_side_cells by assumption.
  now rewrite map2_map, forallb_map_id.
Qed.

(** The columns listed for a pair are the compared columns on which its
    rows compare unequal, in the order of the compared columns. *)
Lemma pair_diff_cells (p : list scalar * list scalar) :
  In p (aligned_pairs keys df_v1 df_v2) ->
  pair_diff keys df_v1 df_v2 p = filter (column_differs df_v1 df_v2 p) cmp.
Proof.
  intros Hp. unfold pair_diff.
  rewrite old_side_cells, new_side_cells by assumption.
  rewrite map2_map. fold cmp. apply diff_names_map.
Qed.


Lemma identical_row_cells (p : list scalar * list scalar) :
  In p (aligned_pairs keys df_v1 df_v2) ->
  identical_row keys df_v1 p
  = map (cell (columns df_v1) (fst p)) (keys ++ cmp).
Proof.
  intros Hp. unfold identical_row.
  now rewrite old_key_cells, old_side_cells, map_app.
Qed.
End Columns.

(** * The properties of the comparison *)

(** C1.  Partition completeness.  On valid input without repeated key
    tuples the run succeeds; the rows of the old frame are as many as the
    rows of [identicas], [diferentes] and [solo_v1] together, the rows of the
    new frame as many as those of [identicas], [diferentes] and [solo_v2];
    and the key tuple of every old row is carried by exactly one row of
    [identicas], [diferentes] and [solo_v1] taken together, the key tuple of
    every new row by exactly one row of [identicas], [diferentes] and
    [solo_v2]. *)
Theorem partition_complete (keys : list string) (df_v1 df_v2 : DataFrame) :
  valid_input keys df_v1 df_v2 = true ->
  NoDup (map (key_text keys (columns df_v1)) (rows df_v1)) ->
  NoDup (map (key_text keys (columns df_v2)) (rows df_v2)) ->
  exists out,
    main keys df_v1 df_v2 = Ok out
    /\ len df_v1 = len (identicas out) + len (diferentes out) + len (solo_v1 out)
    /\ len df_v2 = len (identicas out) + len (diferentes out) + len (solo_v2 out)
    /\ (forall r, In r (rows df_v1) ->
          old_occurrences keys out (key_text keys (columns df_v1) r) = 1)
    /\ (forall r, In r (rows df_v2) ->
          new_occurrences keys out (key_text keys (columns df_v2) r) = 1).
Proof.
  intros Hv Hd1 Hd2. exists (rowwise keys df_v1 df_v2).
  split; [now apply main_rows|].
  destruct (valid_input_facts keys df_v1 df_v2 Hv)
    as (Hn1 & Hn2 & Hr1 & Hr2 & Hnk & Hk1 & Hk2 & Hset).
  unfold len, rowwise. cbn [identicas diferentes solo_v1 solo_v2 rows].
  rewrite !length_map. repeat split.
  - now apply old_total.
  - now apply new_total.
  - intros r Hr. now apply old_once.
  - intros r Hr. now apply new_once.
Qed.

Lemma partition_complete_witness :
  valid_input ex_keys ex_old ex_new = true
  /\ NoDup (map (key_text ex_keys (columns ex_old)) (rows ex_old))
  /\ NoDup (map (key_text ex_keys (columns ex_new)) (rows ex_new))
  /\ exists out,
      main ex_keys ex_old ex_new = Ok out
      /\ len ex_old = len (identicas out) + len (diferentes out) + len (solo_v1 out)
      /\ len ex_new = len (identicas out) + len (diferentes out) + len (solo_v2 out)
      /\ (forall r, In r (rows ex_old) ->
            old_occurrences ex_keys out (key_text ex_keys (columns ex_old) r) = 1)
      /\ (forall r, In r (rows ex_new) ->
            new_occurrences ex_keys out (key_text ex_keys (columns ex_new) r) = 1).
Proof.
  assert (H1 : NoDup (map (key_text ex_keys (columns ex_old)) (rows ex_old))).
  { simpl. repeat constructor; simpl; intuition discriminate. }
  assert (H2 : NoDup (map (key_text ex_keys (columns ex_new)) (rows ex_new))).
  { simpl. repeat constructor; simpl; intuition discriminate. }
  split; [reflexivity|]. split; [exact H1|]. split; [exact H2|].
  exact (partition_complete ex_keys ex_old ex_new eq_refl H1 H2).
Defined.




(** The run on the texts [3] and [3.0]: nothing identical, one differing
    row that names the column. *)
Example strict_run :
  main ["K"] strict_old strict_new
  = Ok (mkSalidas (mkDF ["K"; "Qty"] [])
                  (mkDF ["K"; "diff_cols"; "Qty_v1"; "Qty_v2"]
                        [[SStr "a"; SStr "Qty"; SStr "3"; SStr "3.0"]])
                  (mkDF ["K"; "Qty"] [])
                  (mkDF ["K"; "Qty"] [])).
Proof. reflexivity. Qed.



(** When the keys are the first columns of the old frame, a row of
    [identicas] is the old row of its pair. *)
Lemma identical_row_leading (keys rest : list string) (df_v1 df_v2 : DataFrame)
  (p : list scalar * list scalar) :
  columns df_v1 = keys ++ rest -> NoDup (columns df_v1) ->
  length (fst p) = length (columns df_v1) ->
  identical_row keys df_v1 p = fst p.
Proof.
  intros Hc Hn Hl. unfold identical_row, old_key, old_side, cols_to_compare.
  rewrite <- select_row_app.
  assert (E : keys ++ filter (fun c => negb (mem c keys)) (columns df_v1)
              = columns df_v1).
  { rewrite Hc at 1. rewrite Hc, filter_app, filter_notin_self. simpl.
    f_equal. rewrite Hc in Hn. clear Hc Hl.
    induction rest as [|c rest IH]; [reflexivity|]. simpl.
    assert (Hk : ~ In c keys).
    { intros Hin. apply NoDup_remove_2 in Hn. apply Hn.
      apply in_or_app. now left. }
    rewrite (proj2 (mem_not_In c keys) Hk). simpl. f_equal. apply IH.
    now apply NoDup_remove_1 in Hn. }
  rewrite E. now apply select_row_self.
Qed.

Lemma identicas_rows_leading (keys rest : list string) (df_v1 df_v2 : DataFrame)
  (row : list scalar) :
  valid_input keys df_v1 df_v2 = true ->
  columns df_v1 = keys ++ rest ->
  In row (map (identical_row keys df_v1) (identical_pairs keys df_v1 df_v2)) ->
  In row (old_rows keys df_v1).
Proof.
  intros Hv Hc Hrow.
  destruct (valid_input_facts keys df_v1 df_v2 Hv)
    as (Hn1 & Hn2 & Hr1 & Hr2 & Hnk & Hk1 & Hk2 & Hset).
  apply in_map_iff in Hrow. destruct Hrow as [p [<- Hp]].
  apply filter_In in Hp. destruct Hp as [Hp _].
  destruct (pairs_members keys df_v1 df_v2 p Hp) as [H1 _].
  rewrite (identical_row_leading keys rest df_v1 df_v2 p Hc Hn1); [assumption|].
  now apply (la_length keys df_v1 Hr1).
Qed.

(** C3, failing input.  With the key column second in the frames, the row
    of [identicas] holds the key first and the quantity second under the
    labels [Qty], [ItemNo] of the old frame: the cell under [Qty] is the
    key [A1], not the old record's quantity 10. *)
Theorem identicas_mislabelled :
  valid_input ["ItemNo"] shifted shifted = true
  /\ exists out,
      main ["ItemNo"] shifted shifted = Ok out
      /\ identicas out = mkDF ["Qty"; "ItemNo"] [[SStr "A1"; SInt 10]]
      /\ map (fun row => cell (columns (identicas out)) row "Qty") (rows (identicas out))
         = [SStr "A1"]
      /\ map (fun row => cell (columns shifted) row "Qty") (rows shifted)
         = [SInt 10].
Proof.
  split; [reflexivity|]. eexists. split; [reflexivity|]. repeat split.
Qed.

(** ** The checks of the columns *)

Lemma check_keys_cases (keys : list string) (df_v1 df_v2 : DataFrame) :
  check_keys keys df_v1 df_v2 = Ok tt
  \/ exists k, In k keys /\ check_keys keys df_v1 df_v2 = SysExit 1 (clave_msg k).
Proof.
  induction keys as [|k keys IH]; [now left|]. simpl.
  destruct (negb (mem k (columns df_v1)) || negb (mem k (columns df_v2))).
  - right. exists k. split; [now left | reflexivity].
  - destruct IH as [IH|[k' [Hk IH]]]; [now left|].
    right. exists k'. split; [now right | assumption].
Qed.

Lemma check_keys_first (pre post : list string) (k : string)
  (df_v1 df_v2 : DataFrame) :
  incl pre (columns df_v1) -> incl pre (columns df_v2) ->
  ~ In k (columns df_v1) \/ ~ In k (columns df_v2) ->
  check_keys (pre ++ k :: post) df_v1 df_v2 = SysExit 1 (clave_msg k).
Proof.
  intros H1 H2 Hk. induction pre as [|x pre IH]; simpl.
  - replace (negb (mem k (columns df_v1)) || negb (mem k (columns df_v2)))
      with true; [reflexivity|].
    symmetry. apply orb_true_iff.
    destruct Hk as [Hk|Hk]; [left | right]; apply negb_true_iff;
      now apply mem_not_In.
  - rewrite (proj2 (mem_In x _) (H1 x (or_introl eq_refl))).
    rewrite (proj2 (mem_In x _) (H2 x (or_introl eq_refl))). simpl.
    apply IH; intros y Hy; [apply H1 | apply H2]; now right.
Qed.

(** C5 (as amended).  Two frames whose label sets differ: the run never
    returns frames, and its outcome is the same whatever the rows are.
    When both frames carry every requested key, the outcome is the
    ValueError of [validate_columns], which lists the labels of the old
    frame the new one lacks and the labels of the new frame the old one
    lacks. *)
Theorem schema_mismatch (keys : list string) (df_v1 df_v2 : DataFrame) :
  set_ne (columns df_v1) (columns df_v2) = true ->
  (forall out, main keys df_v1 df_v2 <> Ok out)
  /\ (forall rows1 rows2,
        main keys (mkDF (columns df_v1) rows1) (mkDF (columns df_v2) rows2)
        = main keys df_v1 df_v2)
  /\ (incl keys (columns df_v1) -> incl keys (columns df_v2) ->
      exists missing_in_v2 missing_in_v1,
        main keys df_v1 df_v2 = Raise (ValueError_columns missing_in_v2 missing_in_v1)
        /\ (forall c, In c missing_in_v2 <->
                      In c (columns df_v1) /\ ~ In c (columns df_v2))
        /\ (forall c, In c missing_in_v1 <->
                      In c (columns df_v2) /\ ~ In c (columns df_v1))).
Proof.
  intros Hne.
  assert (Hm : forall d1 d2, columns d1 = columns df_v1 -> columns d2 = columns df_v2 ->
    main keys d1 d2
    = match check_keys keys df_v1 df_v2 with
      | Ok _ => Raise (ValueError_columns
                         (filter (fun c => negb (mem c (columns df_v2))) (columns df_v1))
                         (filter (fun c => negb (mem c (columns df_v1))) (columns df_v2)))
      | Raise e => Raise e
      | SysExit n m => SysExit n m
      end).
  { intros d1 d2 E1 E2. unfold main.
    assert (Ec : check_keys keys d1 d2 = check_keys keys df_v1 df_v2).
    { clear Hne. induction keys as [|k keys IH]; [reflexivity|]. simpl.
      now rewrite E1, E2, IH. }
    rewrite Ec. destruct (check_keys keys df_v1 df_v2); try reflexivity.
    cbn [bind]. unfold validate_columns. rewrite E1, E2, Hne. reflexivity. }
  split; [|split].
  - intros out. rewrite (Hm df_v1 df_v2 eq_refl eq_refl).
    destruct (check_keys keys df_v1 df_v2); discriminate.
  - intros rows1 rows2.
    rewrite (Hm (mkDF (columns df_v1) rows1) (mkDF (columns df_v2) rows2)
                eq_refl eq_refl).
    now rewrite (Hm df_v1 df_v2 eq_refl eq_refl).
  - intros H1 H2. do 2 eexists. split.
    + rewrite (Hm df_v1 df_v2 eq_refl eq_refl), check_keys_ok by assumption.
      reflexivity.
    + split; intros c; rewrite filter_In, negb_true_iff, mem_not_In; reflexivity.
Qed.

Lemma schema_mismatch_witness :
  set_ne (columns with_k) (columns with_extra) = true
  /\ (forall out, main ["K"] with_k with_extra <> Ok out)
  /\ (forall rows1 rows2,
        main ["K"] (mkDF (columns with_k) rows1) (mkDF (columns with_extra) rows2)
        = main ["K"] with_k with_extra)
  /\ (incl ["K"] (columns with_k) -> incl ["K"] (columns with_extra) ->
      exists missing_in_v2 missing_in_v1,
        main ["K"] with_k with_extra
        = Raise (ValueError_columns missing_in_v2 missing_in_v1)
        /\ (forall c, In c missing_in_v2 <->
                      In c (columns with_k) /\ ~ In c (columns with_extra))
        /\ (forall c, In c missing_in_v1 <->
                      In c (columns with_extra) /\ ~ In c (columns with_k))).
Proof.
  split; [reflexivity|].
  exact (schema_mismatch ["K"] with_k with_extra eq_refl).
Defined.

(** The run on the frames [with_k] and [with_extra]. *)
Example schema_mismatch_run :
  main ["K"] with_k with_extra = Raise (ValueError_columns [] ["B"]).
Proof. reflexivity. Qed.

(** C5, counterexample.  The label sets differ and the old frame has the
    key the new one lacks: the run ends in the loop over the keys, with the
    line about the key and no list of columns. *)
Lemma schema_mismatch_counterexample :
  set_ne (columns with_k) (columns without_k) = true
  /\ main ["K"] with_k without_k
     = SysExit 1 "[ERROR] La clave 'K' no existe en ambos CSVs."
  /\ forall l2 l1, main ["K"] with_k without_k <> Raise (ValueError_columns l2 l1).
Proof. repeat split. intros l2 l1 H. discriminate H. Qed.

(** C6 (as amended).  When a requested key is missing from a frame, the
    run ends with exit status 1 after printing the line that names the
    first such key of the request; the line is the same whichever frame
    lacks the key. *)
Theorem missing_key (pre post : list string) (k : string) (df_v1 df_v2 : DataFrame) :
  incl pre (columns df_v1) -> incl pre (columns df_v2) ->
  ~ In k (columns df_v1) \/ ~ In k (columns df_v2) ->
  main (pre ++ k :: post) df_v1 df_v2
  = SysExit 1 ("[ERROR] La clave '" ++ k ++ "' no existe en ambos CSVs.")%string.
Proof.
  intros H1 H2 Hk. unfold main.
  now rewrite (check_keys_first pre post k df_v1 df_v2 H1 H2 Hk).
Qed.

Lemma missing_key_witness :
  incl [] (columns without_k) /\ incl [] (columns with_k)
  /\ (~ In "K" (columns without_k) \/ ~ In "K" (columns with_k))
  /\ main ([] ++ "K" :: []) without_k with_k
     = SysExit 1 ("[ERROR] La clave '" ++ "K" ++ "' no existe en ambos CSVs.")%string.
Proof.
  assert (H : ~ In "K" (columns without_k) \/ ~ In "K" (columns with_k)).
  { left. simpl. intros [E|[]]. discriminate E. }
  split; [intros x []|]. split; [intros x []|]. split; [exact H|].
  exact (missing_key [] [] "K" without_k with_k
           (fun x (F : In x []) => match F with end)
           (fun x (F : In x []) => match F with end) H).
Defined.

(** C6, counterexample.  The key missing from the old frame and the key
    missing from the new frame end the run alike: the outcome does not tell
    which frame lacks the key. *)
Lemma missing_key_counterexample :
  main ["K"] without_k with_k = main ["K"] with_k without_k
  /\ main ["K"] without_k with_k
     = SysExit 1 "[ERROR] La clave 'K' no existe en ambos CSVs.".
Proof. split; reflexivity. Qed.

(** ** A frame compared with itself *)

Lemma NoDup_map_eq {A B : Type} (f : A -> B) (l : list A) (a b : A) :
  NoDup (map f l) -> In a l -> In b l -> f a = f b -> a = b.
Proof.
  induction l as [|x l IH]; intros Hn Ha Hb E; [destruct Ha|].
  simpl in Hn. inversion Hn as [|? ? Hx Hl]; subst.
  destruct Ha as [->|Ha], Hb as [->|Hb].
  - reflexivity.
  - exfalso. apply Hx. rewrite E. now apply in_map.
  - exfalso. apply Hx. rewrite <- E. now apply in_map.
  - now apply IH.
Qed.

Lemma filter_none {A : Type} (f : A -> bool) (l : list A) :
  (forall x, In x l -> f x = false) -> filter f l = [].
Proof.
  induction l as [|a l IH]; intros H; [reflexivity|]. simpl.
  rewrite (H a (or_introl eq_refl)). apply IH. intros x Hx. apply H. now right.
Qed.

Lemma cell_astype_row (keys cols : list string) (row : list scalar) (c : string) :
  ~ In c keys -> cell cols (astype_row keys cols row) c = cell cols row c.
Proof.
  intros H. unfold cell.
  now rewrite cells_at_astype_row, (proj2 (mem_not_In c keys) H).
Qed.

(** C7 (as amended).  A frame without repeated key tuples, whose compared
    cells all compare equal to themselves, compared with itself: every row
    is identical, nothing differs and nothing is on one side only. *)
Theorem self_comparison (keys : list string) (df : DataFrame) :
  valid_input keys df df = true ->
  NoDup (map (key_text keys (columns df)) (rows df)) ->
  (forall row c, In row (rows df) -> In c (cols_to_compare keys df) ->
     py_eq (cell (columns df) row c) (cell (columns df) row c) = true) ->
  exists out,
    main keys df df = Ok out
    /\ len (diferentes out) = 0
    /\ len (solo_v1 out) = 0
    /\ len (solo_v2 out) = 0
    /\ len (identicas out) = len df.
Proof.
  intros Hv Hd Hrefl. exists (rowwise keys df df).
  split; [now apply main_rows|].
  destruct (valid_input_facts keys df df Hv)
    as (Hn1 & _ & Hr1 & _ & Hnk & Hk1 & _ & Hset).
  assert (Hdp : differing_pairs keys df df = []).
  { apply filter_none. intros p Hp. apply negb_false_iff.
    rewrite pair_equal_cells by assumption.
    destruct (pairs_members keys df df p Hp) as (H1 & H2 & E).
    assert (Es : fst p = snd p).
    { apply (NoDup_map_eq (fun r => map py_str (old_key keys df r))
                          (old_rows keys df)); try assumption.
      now rewrite map_ka_raw. }
    rewrite <- Es. apply forallb_forall. intros c Hc.
    rewrite old_rows_raw in H1. apply in_map_iff in H1.
    destruct H1 as [r [<- Hr]].
    rewrite cell_astype_row.
    - now apply Hrefl.
    - apply filter_In in Hc. destruct Hc as [_ Hc].
      apply negb_true_iff in Hc. now apply mem_not_In. }
  assert (Hself : forall r, In r (old_rows keys df) ->
                            same_key keys df df r r = true).
  { intros r Hr. rewrite same_key_texts by assumption. apply texts_eqb_refl. }
  assert (Hoo : only_old keys df df = []).
  { apply filter_none. intros r Hr. apply negb_false_iff.
    apply existsb_exists. exists r. split; [exact Hr | now apply Hself]. }
  assert (Hon : only_new keys df df = []).
  { apply filter_none. intros r Hr. apply negb_false_iff.
    apply existsb_exists. exists r. split; [exact Hr | now apply Hself]. }
  pose proof (old_total keys df df Hd) as Ht.
  unfold len, rowwise. cbn [identicas diferentes solo_v1 solo_v2 rows].
  rewrite !length_map, Hdp, Hoo, Hon in *. simpl in *. repeat split. lia.
Qed.

Lemma self_comparison_witness :
  valid_input ex_keys ex_new ex_new = true
  /\ NoDup (map (key_text ex_keys (columns ex_new)) (rows ex_new))
  /\ (forall row c, In row (rows ex_new) -> In c (cols_to_compare ex_keys ex_new) ->
        py_eq (cell (columns ex_new) row c) (cell (columns ex_new) row c) = true)
  /\ exists out,
      main ex_keys ex_new ex_new = Ok out
      /\ len (diferentes out) = 0
      /\ len (solo_v1 out) = 0
      /\ len (solo_v2 out) = 0
      /\ len (identicas out) = len ex_new.
Proof.
  assert (H1 : NoDup (map (key_text ex_keys (columns ex_new)) (rows ex_new))).
  { simpl. repeat constructor; simpl; intuition discriminate. }
  assert (H2 : forall row c, In row (rows ex_new) ->
                 In c (cols_to_compare ex_keys ex_new) ->
                 py_eq (cell (columns ex_new) row c) (cell (columns ex_new) row c) = true).
  { intros row c [<-|[<-|[]]] [<-|[]]; reflexivity. }
  split; [reflexivity|]. split; [exact H1|]. split; [exact H2|].
  exact (self_comparison ex_keys ex_new eq_refl H1 H2).
Defined.

(** C7, counterexample.  A frame that carries the key [a] twice, compared
    with itself: the join pairs each of the two rows with both, so two rows
    differ. *)
Lemma self_comparison_counterexample :
  valid_input ["K"] repeated repeated = true
  /\ main ["K"] repeated repeated
     = Ok (mkSalidas
             (mkDF ["K"; "Qty"] [[SStr "a"; SInt 1]; [SStr "a"; SInt 2]])
             (mkDF ["K"; "diff_cols"; "Qty_v1"; "Qty_v2"]
                   [[SStr "a"; SStr "Qty"; SInt 1; SInt 2];
                    [SStr "a"; SStr "Qty"; SInt 2; SInt 1]])
             (mkDF ["K"; "Qty"] [])
             (mkDF ["K"; "Qty"] []))
  /\ exists out, main ["K"] repeated repeated = Ok out /\ len (diferentes out) = 2.
Proof. split; [reflexivity|]. split; [reflexivity|]. eexists. split; reflexivity. Qed.

(** A missing value is unequal to itself, so a row that holds one is
    reported as differing from itself. *)
Example self_comparison_nan :
  main ["K"] with_nan with_nan
  = Ok (mkSalidas (mkDF ["K"; "Qty"] [])
                  (mkDF ["K"; "diff_cols"; "Qty_v1"; "Qty_v2"]
                        [[SStr "a"; SStr "Qty"; SNaN; SNaN]])
                  (mkDF ["K"; "Qty"] [])
                  (mkDF ["K"; "Qty"] [])).
Proof. reflexivity. Qed.

(** ** The order of the output rows *)

Lemma subseq_filter {A : Type} (f : A -> bool) (l : list A) : subseq (filter f l) l.
Proof.
  induction l as [|a l IH]; [constructor|]. simpl.
  destruct (f a); now constructor.
Qed.

Lemma follows_repeat {A : Type} (x : A) (n : nat) (l1 l2 : list A) :
  follows l1 l2 -> follows (repeat x n ++ l1) (x :: l2).
Proof.
  intros H. induction n as [|n IH]; simpl; now constructor.
Qed.

Lemma map_fst_constant {A B C : Type} (f : A -> C) (a : A) (l : list (A * B)) :
  (forall p, In p l -> fst p = a) ->
  map (fun p => f (fst p)) l = repeat (f a) (length l).
Proof.
  induction l as [|p l IH]; intros H; [reflexivity|]. simpl.
  rewrite (H p (or_introl eq_refl)). f_equal. apply IH.
  intros q Hq. apply H. now right.
Qed.

(** The pairs of a join, filtered, come in the order of the left rows. *)
Lemma follows_join {A B C : Type} (f : A -> C) (R : A -> B -> bool)
  (E : A * B -> bool) (la : list A) (lb : list B) :
  follows (map (fun p => f (fst p))
               (filter E (flat_map (fun a => map (pair a) (filter (R a) lb)) la)))
          (map f la).
Proof.
  induction la as [|a la IH]; [constructor|]. cbn [flat_map map].
  rewrite filter_app, map_app.
  rewrite (map_fst_constant f a).
  - now apply follows_repeat.
  - intros p Hp. apply filter_In in Hp. destruct Hp as [Hp _].
    apply in_map_iff in Hp. now destruct Hp as [b [<- _]].
Qed.

Lemma map_flat_map {A B C : Type} (f : B -> C) (g : A -> list B) (l : list A) :
  map f (flat_map g l) = flat_map (fun x => map f (g x)) l.
Proof.
  induction l as [|a l IH]; [reflexivity|]. simpl. now rewrite map_app, IH.
Qed.

Lemma flat_map_map_in {A B C : Type} (f : A -> B) (g : B -> list C)
  (h : A -> list C) (l : list A) :
  (forall a, In a l -> g (f a) = h a) -> flat_map g (map f l) = flat_map h l.
Proof.
  induction l as [|a l IH]; intros H; [reflexivity|]. simpl.
  rewrite (H a (or_introl eq_refl)), IH; [reflexivity|].
  intros x Hx. apply H. now right.
Qed.

Lemma map_nth_seq {A : Type} (d : A) (l : list A) :
  map (fun j => nth j l d) (seq 0 (length l)) = l.
Proof.
  induction l as [|a l IH]; [reflexivity|]. simpl. f_equal.
  rewrite <- seq_shift, map_map. exact IH.
Qed.

(** The pairs of a join are the pairs of rows at [join_indices]. *)
Lemma join_by_index {A B : Type} (R : A -> B -> bool) (la : list A) (lb : list B)
  (da : A) (db : B) :
  flat_map (fun a => map (pair a) (filter (R a) lb)) la
  = map (fun ij => (nth (fst ij) la da, nth (snd ij) lb db))
        (join_indices R la lb da db).
Proof.
  unfold join_indices. rewrite map_flat_map.
  transitivity (flat_map (fun a => map (pair a) (filter (R a) lb))
                         (map (fun i => nth i la da) (seq 0 (length la))));
    [now rewrite map_nth_seq|].
  apply flat_map_map_in. intros i _. rewrite map_map. cbn [fst snd].
  transitivity (map (pair (nth i la da))
                    (filter (R (nth i la da))
                            (map (fun j => nth j lb db) (seq 0 (length lb)))));
    [now rewrite map_nth_seq|].
  now rewrite filter_map_swap, map_map.
Qed.

Lemma sorted_app {A : Type} (R : A -> A -> Prop) (l1 l2 : list A) :
  StronglySorted R l1 -> StronglySorted R l2 ->
  (forall x y, In x l1 -> In y l2 -> R x y) ->
  StronglySorted R (l1 ++ l2).
Proof.
  intros H1 H2 H. induction H1 as [|a l1 H1 IH Ha]; [exact H2|].
  simpl. constructor.
  - apply IH. intros x y Hx Hy. apply H; [now right | exact Hy].
  - apply Forall_app. split; [exact Ha|].
    apply Forall_forall. intros y Hy. apply H; [now left | exact Hy].
Qed.

Lemma sorted_filter {A : Type} (R : A -> A -> Prop) (f : A -> bool) (l : list A) :
  StronglySorted R l -> StronglySorted R (filter f l).
Proof.
  intros H. induction H as [|a l H IH Ha]; [constructor|]. simpl.
  destruct (f a); [|exact IH]. constructor; [exact IH|].
  apply Forall_forall. intros y Hy. apply filter_In in Hy.
  rewrite Forall_forall in Ha. apply Ha. tauto.
Qed.

Lemma sorted_seq (s n : nat) : StronglySorted lt (seq s n).
Proof.
  revert s. induction n as [|n IH]; intros s; [constructor|]. simpl.
  constructor; [apply IH|]. apply Forall_forall. intros y Hy.
  apply in_seq in Hy. lia.
Qed.

Lemma sorted_map_pair (i : nat) (l : list nat) :
  StronglySorted lt l -> StronglySorted pair_before (map (pair i) l).
Proof.
  intros H. induction H as [|a l H IH Ha]; [constructor|]. simpl.
  constructor; [exact IH|]. apply Forall_forall. intros y Hy.
  apply in_map_iff in Hy. destruct Hy as [j [<- Hj]].
  rewrite Forall_forall in Ha. right. simpl. split; [reflexivity | now apply Ha].
Qed.

Lemma sorted_pairs (Q : nat -> nat -> bool) (js ixs : list nat) :
  StronglySorted lt js -> StronglySorted lt ixs ->
  StronglySorted pair_before
    (flat_map (fun i => map (pair i) (filter (Q i) js)) ixs).
Proof.
  intros Hjs His. induction His as [|i ixs His IH Hi]; [constructor|].
  cbn [flat_map]. apply sorted_app.
  - apply sorted_map_pair. now apply sorted_filter.
  - exact IH.
  - intros x y Hx Hy. apply in_map_iff in Hx. destruct Hx as [j [<- _]].
    apply in_flat_map in Hy. destruct Hy as [i' [Hi' Hy]].
    apply in_map_iff in Hy. destruct Hy as [j' [<- _]].
    rewrite Forall_forall in Hi. left. simpl. now apply Hi.
Qed.

Lemma join_indices_sorted {A B : Type} (R : A -> B -> bool) (la : list A)
  (lb : list B) (da : A) (db : B) :
  StronglySorted pair_before (join_indices R la lb da db).
Proof.
  unfold join_indices.
  apply (sorted_pairs (fun i j => R (nth i la da) (nth j lb db)));
    apply sorted_seq.
Qed.

Lemma join_indices_bound {A B : Type} (R : A -> B -> bool) (la : list A)
  (lb : list B) (da : A) (db : B) (ij : nat * nat) :
  In ij (join_indices R la lb da db) ->
  fst ij < length la /\ snd ij < length lb
  /\ R (nth (fst ij) la da) (nth (snd ij) lb db) = true.
Proof.
  unfold join_indices. intros H. apply in_flat_map in H.
  destruct H as [i [Hi H]]. apply in_map_iff in H. destruct H as [j [<- Hj]].
  apply filter_In in Hj. destruct Hj as [Hj HR].
  apply in_seq in Hi, Hj. simpl. repeat split; [lia | lia | exact HR].
Qed.

(** The rows made from the pairs of the join that pass a test come in the
    order of the join. *)
Lemma join_in_order (keys : list string) (df_v1 df_v2 : DataFrame)
  (made : list scalar * list scalar -> list scalar)
  (E : list scalar * list scalar -> bool) :
  in_join_order keys df_v1 df_v2 made
    (map made (filter E (aligned_pairs keys df_v1 df_v2))).
Proof.
  exists (filter (fun ij => E (pair_at keys df_v1 df_v2 ij))
                 (join_indices (same_key keys df_v1 df_v2)
                               (old_rows keys df_v1) (new_rows keys df_v2) [] [])).
  split; [|split].
  - apply sorted_filter. apply join_indices_sorted.
  - apply Forall_forall. intros ij Hij. apply filter_In in Hij.
    destruct Hij as [Hij _]. apply join_indices_bound in Hij.
    unfold old_rows, new_rows in Hij.
    rewrite !length_rows_astype_keys in Hij. exact Hij.
  - unfold aligned_pairs.
    rewrite (join_by_index (same_key keys df_v1 df_v2) _ _ [] []).
    rewrite filter_map_swap, map_map. reflexivity.
Qed.

(** C8 (as amended).  The rows of [solo_v2] are rows of the new frame (with
    the keys as text) in the new frame's order, those of [solo_v1] rows of
    the old frame in the old frame's order; the rows of [identicas] and of
    [diferentes] come in the order of the old rows they are made from: the
    key tuples run through the key tuples of the old frame in order, and
    each of the two frames is made, row after row, from pairs of an old
    and a new row at strictly increasing positions, the position in the
    old frame first and, for one old row, the position in the new frame. *)
Theorem output_order (keys : list string) (df_v1 df_v2 : DataFrame) :
  valid_input keys df_v1 df_v2 = true ->
  exists out,
    main keys df_v1 df_v2 = Ok out
    /\ subseq (rows (solo_v2 out)) (map (astype_row keys (columns df_v2)) (rows df_v2))
    /\ subseq (rows (solo_v1 out)) (map (astype_row keys (columns df_v1)) (rows df_v1))
    /\ follows (leading_texts keys (identicas out))
               (map (key_text keys (columns df_v1)) (rows df_v1))
    /\ follows (leading_texts keys (diferentes out))
               (map (key_text keys (columns df_v1)) (rows df_v1))
    /\ in_join_order keys df_v1 df_v2 (identical_row keys df_v1)
                     (rows (identicas out))
    /\ in_join_order keys df_v1 df_v2 (differing_row keys df_v1 df_v2)
                     (rows (diferentes out)).
Proof.
  intros Hv. exists (rowwise keys df_v1 df_v2).
  split; [now apply main_rows|].
  destruct (valid_input_facts keys df_v1 df_v2 Hv)
    as (Hn1 & Hn2 & Hr1 & Hr2 & Hnk & Hk1 & Hk2 & Hset).
  unfold leading_texts, rowwise. cbn [identicas diferentes solo_v1 solo_v2 rows].
  split; [|split; [|split; [|split; [|split]]]];
    [ | | | | apply join_in_order | apply join_in_order].
  - rewrite <- new_rows_raw. apply subseq_filter.
  - rewrite <- old_rows_raw. apply subseq_filter.
  - rewrite map_map, <- map_ka_raw.
    rewrite (map_ext_in _ (fun p => map py_str (old_key keys df_v1 (fst p)))).
    + apply (follows_join (fun r => map py_str (old_key keys df_v1 r))).
    + intros p Hp. apply filter_In in Hp.
      apply (leading_identical keys df_v1 df_v2); tauto.
  - rewrite map_map, <- map_ka_raw.
    rewrite (map_ext_in _ (fun p => map py_str (old_key keys df_v1 (fst p)))).
    + apply (follows_join (fun r => map py_str (old_key keys df_v1 r))).
    + intros p Hp. apply filter_In in Hp.
      apply (leading_differing keys df_v1 df_v2); tauto.
Qed.

Lemma output_order_witness :
  valid_input ["K"] ab ba = true
  /\ exists out,
      main ["K"] ab ba = Ok out
      /\ subseq (rows (solo_v2 out)) (map (astype_row ["K"] (columns ba)) (rows ba))
      /\ subseq (rows (solo_v1 out)) (map (astype_row ["K"] (columns ab)) (rows ab))
      /\ follows (leading_texts ["K"] (identicas out))
                 (map (key_text ["K"] (columns ab)) (rows ab))
      /\ follows (leading_texts ["K"] (diferentes out))
                 (map (key_text ["K"] (columns ab)) (rows ab))
      /\ in_join_order ["K"] ab ba (identical_row ["K"] ab)
                       (rows (identicas out))
      /\ in_join_order ["K"] ab ba (differing_row ["K"] ab ba)
                       (rows (diferentes out)).
Proof.
  split; [reflexivity|].
  exact (output_order ["K"] ab ba eq_refl).
Defined.

(** An old frame that repeats a key, compared with itself: the identical
    rows come in the order of the old rows, and the same rows with the
    second and the third exchanged are not in the order of the join,
    although their key tuples run through those of the old frame. *)
Example repeated_key_order :
  (exists out,
     main ["K"] aba aba = Ok out
     /\ rows (identicas out)
        = [[SStr "a"; SInt 1]; [SStr "b"; SInt 2]; [SStr "a"; SInt 3]])
  /\ ~ in_join_order ["K"] aba aba (identical_row ["K"] aba)
        [[SStr "a"; SInt 1]; [SStr "a"; SInt 3]; [SStr "b"; SInt 2]].
Proof.
  split; [eexists; split; reflexivity|].
  intros [idx [Hs [Hb He]]].
  destruct idx as [|[i1 j1] [|[i2 j2] [|[i3 j3] [|]]]]; try discriminate He.
  inversion Hs as [|? ? Hs' F1]; subst. inversion Hs' as [|? ? Hs'' F2]; subst.
  inversion F2 as [|? ? P23 _]; subst.
  inversion Hb as [|? ? B1 Hb']; subst. inversion Hb' as [|? ? B2 Hb'']; subst.
  inversion Hb'' as [|? ? B3 _]; subst.
  cbn [fst snd] in B2, B3. unfold len in *. cbn in B2, B3.
  destruct B2 as [B2 _], B3 as [B3 _].
  assert (i2 = 2).
  { destruct i2 as [|[|[|]]]; try lia; cbv in He; try discriminate He; reflexivity. }
  assert (i3 = 1).
  { subst. destruct i3 as [|[|[|]]]; try lia; cbv in He; try discriminate He;
      reflexivity. }
  subst. unfold pair_before in P23. simpl in P23. lia.
Qed.

(** C8, counterexample.  The old frame holds the keys [a], [b] in this
    order, the new frame holds them in the order [b], [a]: the identical
    rows come out in the order [a], [b] of the old frame, which does not
    follow the order of the new frame. *)
Lemma output_order_counterexample :
  valid_input ["K"] ab ba = true
  /\ exists out,
      main ["K"] ab ba = Ok out
      /\ leading_texts ["K"] (identicas out) = [["a"]; ["b"]]
      /\ map (key_text ["K"] (columns ba)) (rows ba) = [["b"]; ["a"]]
      /\ ~ follows (leading_texts ["K"] (identicas out))
                   (map (key_text ["K"] (columns ba)) (rows ba)).
Proof.
  split; [reflexivity|]. eexists. split; [reflexivity|].
  split; [reflexivity|]. split; [reflexivity|].
  cbv. intros H.
  repeat match goal with
         | H : follows _ _ |- _ => inversion H; clear H; subst
         end.
Qed.

(** ** Repeated key tuples *)

Lemma texts_eqb_sym (t1 t2 : list string) : texts_eqb t1 t2 = texts_eqb t2 t1.
Proof.
  revert t2. induction t1 as [|a t1 IH]; intros [|b t2]; simpl; try reflexivity.
  now rewrite IH, String.eqb_sym.
Qed.

(** The pairs of a join whose left element passes [P], when for such an
    element the join condition is the test [Q] of the right element. *)
Lemma count_join {A B : Type} (R : A -> B -> bool) (P : A -> bool) (Q : B -> bool)
  (la : list A) (lb : list B) :
  (forall a b, In a la -> In b lb -> P a = true -> R a b = Q b) ->
  length (filter (fun p => P (fst p))
            (flat_map (fun a => map (pair a) (filter (R a) lb)) la))
  = length (filter P la) * length (filter Q lb).
Proof.
  induction la as [|a la IH]; intros H; [reflexivity|].
  cbn [flat_map filter]. rewrite filter_app, length_app, filter_fst_pairs.
  rewrite IH by (intros x b Hx; apply H; now right).
  destruct (P a) eqn:Pa; [|reflexivity].
  rewrite length_map.
  rewrite (filter_ext_in (R a) Q) by (intros b Hb; apply H; auto; now left).
  simpl. reflexivity.
Qed.

Lemma count_unmatched {A B : Type} (R : A -> B -> bool) (P : A -> bool)
  (Q : B -> bool) (la : list A) (lb : list B) :
  (forall a b, In a la -> In b lb -> P a = true -> R a b = Q b) ->
  length (filter P (filter (fun a => negb (existsb (R a) lb)) la))
  = if (length (filter Q lb) =? 0)%nat then length (filter P la) else 0.
Proof.
  induction la as [|a la IH]; intros H.
  - simpl. now destruct (length (filter Q lb) =? 0)%nat.
  - specialize (IH (fun x b Hx => H x b (or_intror Hx))).
    cbn [filter]. destruct (P a) eqn:Pa.
    + assert (E : existsb (R a) lb = negb (length (filter Q lb) =? 0)%nat).
      { rewrite existsb_filter_nil.
        rewrite (filter_ext_in (R a) Q) by (intros b Hb; apply H; auto; now left).
        now destruct (filter Q lb). }
      rewrite E, negb_involutive.
      destruct (length (filter Q lb) =? 0)%nat; cbn [filter].
      * rewrite Pa. simpl. now rewrite IH.
      * exact IH.
    + destruct (negb (existsb (R a) lb)); cbn [filter]; [rewrite Pa|]; exact IH.
Qed.

(** C9.  Repeated key tuples.  On valid input, for every key tuple the
    rows of [identicas] and [diferentes] that carry it are as many as the
    product of the number of old rows and the number of new rows that carry
    it: each old row is paired with each new row of its key, and nothing is
    removed.  The rows of [solo_v1] with the key tuple are all the old rows
    with it when no new row carries it, and none otherwise; likewise for
    [solo_v2]. *)
Theorem cross_product (keys : list string) (df_v1 df_v2 : DataFrame) :
  valid_input keys df_v1 df_v2 = true ->
  exists out,
    main keys df_v1 df_v2 = Ok out
    /\ forall kt,
        let in_old := count_key (select_row keys (columns df_v1)) kt (rows df_v1) in
        let in_new := count_key (select_row keys (columns df_v2)) kt (rows df_v2) in
        count_key (leading keys) kt (rows (identicas out))
        + count_key (leading keys) kt (rows (diferentes out))
        = in_old * in_new
        /\ count_key (select_row keys (columns (solo_v1 out))) kt (rows (solo_v1 out))
           = (if (in_new =? 0)%nat then in_old else 0)
        /\ count_key (select_row keys (columns (solo_v2 out))) kt (rows (solo_v2 out))
           = (if (in_old =? 0)%nat then in_new else 0).
Proof.
  intros Hv. exists (rowwise keys df_v1 df_v2).
  split; [now apply main_rows|].
  destruct (valid_input_facts keys df_v1 df_v2 Hv)
    as (Hn1 & Hn2 & Hr1 & Hr2 & Hnk & Hk1 & Hk2 & Hset).
  intros kt in_old in_new.
  set (ka := fun r => map py_str (old_key keys df_v1 r)).
  set (kb := fun r => map py_str (new_key keys df_v2 r)).
  assert (Eo : in_old = length (filter (fun r => texts_eqb (ka r) kt)
                                       (old_rows keys df_v1))).
  { unfold in_old, count_key. rewrite old_rows_raw, length_filter_map.
    f_equal. apply filter_ext. intros r. unfold ka. now rewrite ka_raw. }
  assert (En : in_new = length (filter (fun r => texts_eqb (kb r) kt)
                                       (new_rows keys df_v2))).
  { unfold in_new, count_key. rewrite new_rows_raw, length_filter_map.
    f_equal. apply filter_ext. intros r. unfold kb. now rewrite kb_raw. }
  assert (H1 : forall r1 r2, In r1 (old_rows keys df_v1) -> In r2 (new_rows keys df_v2) ->
                texts_eqb (ka r1) kt = true ->
                same_key keys df_v1 df_v2 r1 r2 = texts_eqb (kb r2) kt).
  { intros r1 r2 I1 I2 E. rewrite same_key_texts by assumption.
    apply texts_eqb_eq in E. fold (ka r1). rewrite E. apply texts_eqb_sym. }
  assert (H2 : forall r2 r1, In r2 (new_rows keys df_v2) -> In r1 (old_rows keys df_v1) ->
                texts_eqb (kb r2) kt = true ->
                same_key keys df_v1 df_v2 r1 r2 = texts_eqb (ka r1) kt).
  { intros r2 r1 I2 I1 E. rewrite same_key_texts by assumption.
    apply texts_eqb_eq in E. fold (kb r2). now rewrite E. }
  rewrite Eo, En. cbn [rowwise identicas diferentes solo_v1 solo_v2 rows columns].
  split; [|split].
  - rewrite count_aligned by assumption.
    apply (count_join (same_key keys df_v1 df_v2) (fun r => texts_eqb (ka r) kt)
                      (fun r => texts_eqb (kb r) kt)). exact H1.
  - apply (count_unmatched (same_key keys df_v1 df_v2) (fun r => texts_eqb (ka r) kt)
                           (fun r => texts_eqb (kb r) kt)). exact H1.
  - apply (count_unmatched (fun r2 r1 => same_key keys df_v1 df_v2 r1 r2)
                           (fun r => texts_eqb (kb r) kt)
                           (fun r => texts_eqb (ka r) kt)). exact H2.
Qed.

Lemma cross_product_witness :
  valid_input ["K"] repeated repeated = true
  /\ exists out,
    main ["K"] repeated repeated = Ok out
    /\ forall kt,
        let in_old := count_key (select_row ["K"] (columns repeated)) kt (rows repeated) in
        let in_new := count_key (select_row ["K"] (columns repeated)) kt (rows repeated) in
        count_key (leading ["K"]) kt (rows (identicas out))
        + count_key (leading ["K"]) kt (rows (diferentes out))
        = in_old * in_new
        /\ count_key (select_row ["K"] (columns (solo_v1 out))) kt (rows (solo_v1 out))
           = (if (in_new =? 0)%nat then in_old else 0)
        /\ count_key (select_row ["K"] (columns (solo_v2 out))) kt (rows (solo_v2 out))
           = (if (in_old =? 0)%nat then in_new else 0).
Proof.
  split; [reflexivity|].
  exact (cross_product ["K"] repeated repeated eq_refl).
Defined.

(** ** Differing rows name a column *)

Lemma concat_not_empty (names : list string) :
  names <> [] -> (forall c, In c names -> c <> "") -> String.concat "," names <> "".
Proof.
  destruct names as [|c rest]; intros Hn Hc; [congruence|].
  assert (c <> "") by (apply Hc; now left).
  destruct c as [|a c]; [congruence|].
  simpl. destruct rest; discriminate.
Qed.

Lemma filter_all {A : Type} (f : A -> bool) (l : list A) :
  (forall x, In x l -> f x = true) -> filter f l = l.
Proof.
  induction l as [|a l IH]; intros H; [reflexivity|]. simpl.
  rewrite (H a (or_introl eq_refl)). f_equal. apply IH.
  intros x Hx. apply H. now right.
Qed.

(** C10.  On valid input every row of [diferentes] holds, right after the
    key cells, the comma-joined list of at least one compared column (a text
    that is not empty when no column name is empty); when there is no
    compared column, nothing differs and every aligned pair is identical. *)
Theorem differing_names_column (keys : list string) (df_v1 df_v2 : DataFrame) :
  valid_input keys df_v1 df_v2 = true ->
  exists out,
    main keys df_v1 df_v2 = Ok out
    /\ (forall row, In row (rows (diferentes out)) ->
         exists names,
           names <> []
           /\ incl names (cols_to_compare keys df_v1)
           /\ nth_error row (length keys) = Some (SStr (String.concat "," names))
           /\ ((forall c, In c names -> c <> "") -> String.concat "," names <> ""))
    /\ (cols_to_compare keys df_v1 = [] ->
        rows (diferentes out) = []
        /\ len (identicas out) = length (aligned_pairs keys df_v1 df_v2)).
Proof.
  intros Hv. exists (rowwise keys df_v1 df_v2).
  split; [now apply main_rows|].
  destruct (valid_input_facts keys df_v1 df_v2 Hv)
    as (Hn1 & Hn2 & Hr1 & Hr2 & Hnk & Hk1 & Hk2 & Hset).
  cbn [rowwise identicas diferentes rows]. split.
  - intros row Hrow. apply in_map_iff in Hrow. destruct Hrow as [p [<- Hp]].
    apply filter_In in Hp. destruct Hp as [Hp Hne].
    apply negb_true_iff in Hne.
    exists (pair_diff keys df_v1 df_v2 p).
    assert (Hnn : pair_diff keys df_v1 df_v2 p <> []).
    { rewrite pair_diff_cells by assumption.
      rewrite pair_equal_cells in Hne by assumption.
      intros E.
      assert (F : forallb (fun c => py_eq (cell (columns df_v1) (fst p) c)
                                          (cell (columns df_v2) (snd p) c))
                          (cols_to_compare keys df_v1) = true).
      { apply forallb_forall. intros c Hc.
        destruct (py_eq (cell (columns df_v1) (fst p) c)
                        (cell (columns df_v2) (snd p) c)) eqn:Ec; [reflexivity|].
        exfalso.
        assert (Hin : In c (filter (column_differs df_v1 df_v2 p)
                                   (cols_to_compare keys df_v1))).
        { apply filter_In. split; [assumption|].
          unfold column_differs, py_ne. now rewrite Ec. }
        rewrite E in Hin. destruct Hin. }
      congruence. }
    split; [exact Hnn|]. split; [|split].
    + rewrite pair_diff_cells by assumption.
      intros c Hc. apply filter_In in Hc. tauto.
    + unfold differing_row.
      rewrite nth_error_app2
        by (rewrite (length_old_key keys df_v1 df_v2) by assumption; lia).
      rewrite (length_old_key keys df_v1 df_v2) by assumption.
      now rewrite Nat.sub_diag.
    + now apply concat_not_empty.
  - intros Hc.
    assert (Hall : forall p, pair_equal keys df_v1 df_v2 p = true).
    { intros p. unfold pair_equal, old_side. now rewrite Hc. }
    split.
    + unfold differing_pairs. rewrite filter_none; [reflexivity|].
      intros p _. now rewrite Hall.
    + unfold len, identical_pairs. cbn [rows]. rewrite length_map.
      now rewrite filter_all by (intros p _; apply Hall).
Qed.

Lemma differing_names_column_witness :
  valid_input ex_keys ex_old ex_new = true
  /\ exists out,
    main ex_keys ex_old ex_new = Ok out
    /\ (forall row, In row (rows (diferentes out)) ->
         exists names,
           names <> []
           /\ incl names (cols_to_compare ex_keys ex_old)
           /\ nth_error row (length ex_keys) = Some (SStr (String.concat "," names))
           /\ ((forall c, In c names -> c <> "") -> String.concat "," names <> ""))
    /\ (cols_to_compare ex_keys ex_old = [] ->
        rows (diferentes out) = []
        /\ len (identicas out) = length (aligned_pairs ex_keys ex_old ex_new)).
Proof.
  split; [reflexivity|].
  exact (differing_names_column ex_keys ex_old ex_new eq_refl).
Defined.

(** The case without compared columns, run: the key is the only column. *)
Example only_keys_run :
  main ["K"] (mkDF ["K"] [[SInt 1]; [SInt 2]]) (mkDF ["K"] [[SInt 2]; [SInt 3]])
  = Ok (mkSalidas (mkDF ["K"] [[SStr "2"]])
                  (mkDF ["K"] [])
                  (mkDF ["K"] [[SStr "3"]])
                  (mkDF ["K"] [[SStr "1"]])).
Proof. reflexivity. Qed.

(** * Further properties of the script *)

(** ** The names of the output files *)

Lemma append_cancel_l (x a b : string) : (x ++ a)%string = (x ++ b)%string -> a = b.
Proof.
  induction x as [|c x IH]; simpl; intros H; [assumption|].
  injection H as H. now apply IH.
Qed.

Lemma starts_with_sep_prefixed (pre n1 n2 : string) :
  starts_with_sep n1 = false -> starts_with_sep n2 = false ->
  starts_with_sep (pre ++ n1) = starts_with_sep (pre ++ n2).
Proof. destruct pre; simpl; intros H1 H2; [now rewrite H1, H2 | reflexivity]. Qed.

Lemma path_join_prefixed_inj (outdir pre n1 n2 : string) :
  starts_with_sep n1 = false -> starts_with_sep n2 = false ->
  path_join outdir (pre ++ n1) = path_join outdir (pre ++ n2) -> n1 = n2.
Proof.
  intros H1 H2. unfold path_join.
  rewrite (starts_with_sep_prefixed pre n1 n2 H1 H2).
  destruct (starts_with_sep (pre ++ n2)).
  - apply append_cancel_l.
  - destruct outdir as [|c o]; [apply append_cancel_l|].
    destruct (ends_with_sep (String c o)); intros H.
    + apply append_cancel_l in H. now apply append_cancel_l in H.
    + apply append_cancel_l in H. apply append_cancel_l in H.
      now apply append_cancel_l in H.
Qed.

(** Whatever the output directory and the prefix, the four files have four
    different paths: no output overwrites another. *)
Theorem output_paths_distinct (outdir prefix_arg : string) :
  NoDup (output_paths outdir prefix_arg).
Proof.
  unfold output_paths, file_names. cbn [map].
  repeat constructor; cbn [In]; intros H;
    repeat match goal with
           | H : _ \/ _ |- _ => destruct H as [H|H]
           | H : False |- _ => destruct H
           | H : path_join _ _ = path_join _ _ |- _ =>
               apply path_join_prefixed_inj in H; [discriminate H | reflexivity | reflexivity]
           end.
Qed.

(** A prefix that starts with the separator makes the file names absolute:
    the four paths are then the prefix, an underscore and the file name,
    and the output directory does not occur in them. *)
Theorem absolute_prefix_leaves_outdir (outdir prefix_arg : string) :
  starts_with_sep prefix_arg = true ->
  output_paths outdir prefix_arg
  = map (fun name => ((prefix_arg ++ "_") ++ name)%string) file_names.
Proof.
  intros H. destruct prefix_arg as [|c p]; [discriminate|].
  unfold output_paths. apply map_ext. intros name.
  unfold path_join, file_prefix. simpl in *. now rewrite H.
Qed.

Lemma absolute_prefix_leaves_outdir_witness :
  starts_with_sep "/tmp/x" = true
  /\ output_paths "salida" "/tmp/x"
     = map (fun name => (("/tmp/x" ++ "_") ++ name)%string) file_names.
Proof.
  split; [reflexivity|].
  exact (absolute_prefix_leaves_outdir "salida" "/tmp/x" eq_refl).
Defined.

(** ** The check of the label sets *)

(** [validate_columns] passes exactly when the two frames carry the same
    labels, in whatever order; when it raises, the two lists of its message
    hold the labels of each frame the other one lacks, and they are never
    both empty. *)
Theorem validate_columns_lists (df1 df2 : DataFrame) :
  (validate_columns df1 df2 = Ok tt
   <-> forall c, In c (columns df1) <-> In c (columns df2))
  /\ (forall missing_in_v2 missing_in_v1,
        validate_columns df1 df2
        = Raise (ValueError_columns missing_in_v2 missing_in_v1) ->
        (missing_in_v2 <> [] \/ missing_in_v1 <> [])
        /\ (forall c, In c missing_in_v2 <->
                      In c (columns df1) /\ ~ In c (columns df2))
        /\ (forall c, In c missing_in_v1 <->
                      In c (columns df2) /\ ~ In c (columns df1))).
Proof.
  unfold validate_columns. destruct (set_ne (columns df1) (columns df2)) eqn:E.
  - split.
    + split; [discriminate|]. intros H. apply set_ne_false in H. congruence.
    + intros l2 l1 H. injection H as <- <-. split; [|split].
      * destruct (filter (fun c => negb (mem c (columns df2))) (columns df1))
          as [|x l] eqn:E2; [|left; discriminate].
        destruct (filter (fun c => negb (mem c (columns df1))) (columns df2))
          as [|y l'] eqn:E1; [|right; discriminate].
        exfalso. assert (F : set_ne (columns df1) (columns df2) = false);
          [|congruence].
        apply set_ne_false. intros c. split; intros Hc.
        -- destruct (mem c (columns df2)) eqn:M; [now apply mem_In|].
           assert (Hin : In c []) by
             (rewrite <- E2; apply filter_In; now rewrite M).
           destruct Hin.
        -- destruct (mem c (columns df1)) eqn:M; [now apply mem_In|].
           assert (Hin : In c []) by
             (rewrite <- E1; apply filter_In; now rewrite M).
           destruct Hin.
      * intros c. now rewrite filter_In, negb_true_iff, mem_not_In.
      * intros c. now rewrite filter_In, negb_true_iff, mem_not_In.
  - split.
    + split; [intros _; now apply set_ne_false | reflexivity].
    + intros l2 l1 H. discriminate H.
Qed.

(** ** More on the four frames *)

Lemma valid_input_labels (keys : list string) (df_v1 df_v2 : DataFrame) :
  valid_input keys df_v1 df_v2 = true ->
  (forall k c, In k keys -> In c (cols_to_compare keys df_v1) ->
     k <> (c ++ "_v1")%string /\ k <> (c ++ "_v2")%string)
  /\ ~ In "diff_cols" keys
  /\ (forall c, In c reserved -> ~ In c (columns df_v1)).
Proof.
  unfold valid_input. rewrite !andb_true_iff.
  intros [[[[[[[W1 W2] Hnk] Hk] Hs] Hc] Hd] Hr].
  rewrite forallb_forall in Hc, Hr.
  apply negb_true_iff in Hd. apply mem_not_In in Hd.
  split; [|split; [assumption|]].
  - intros k c Hk' Hc'. apply Hc in Hk'. rewrite andb_true_iff in Hk'.
    rewrite !negb_true_iff, !mem_not_In in Hk'. destruct Hk' as [A B].
    split; intros ->; [apply A | apply B]; apply in_map_iff; now exists c.
  - intros c Hc'. apply Hr in Hc'. apply negb_true_iff in Hc'.
    now apply mem_not_In.
Qed.

(** The column [diff_cols] is there exactly when some row differs: with no
    differing row the header of [diferentes] is the keys and the suffixed
    compared columns only. *)
Theorem diff_cols_only_with_rows (keys : list string) (df_v1 df_v2 : DataFrame) :
  valid_input keys df_v1 df_v2 = true ->
  exists out,
    main keys df_v1 df_v2 = Ok out
    /\ (In "diff_cols" (columns (diferentes out)) <-> rows (diferentes out) <> [])
    /\ (rows (diferentes out) = [] ->
        columns (diferentes out)
        = keys ++ suffixed "_v1" (cols_to_compare keys df_v1)
               ++ suffixed "_v2" (cols_to_compare keys df_v1)).
Proof.
  intros Hv. exists (rowwise keys df_v1 df_v2).
  split; [now apply main_rows|].
  destruct (valid_input_labels keys df_v1 df_v2 Hv) as (Hclash & Hdc & Hres).
  cbn [rowwise diferentes columns rows]. unfold differing_columns.
  destruct (differing_pairs keys df_v1 df_v2) as [|p dp]; cbn [map].
  - split; [|reflexivity]. split; [|congruence].
    intros H. exfalso. apply in_app_or in H. destruct H as [H|H]; [contradiction|].
    apply in_app_or in H.
    destruct H as [H|H]; apply in_map_iff in H; destruct H as [c [E _]];
      apply diff_cols_not_suffixed in E; auto.
  - split; [|discriminate]. split; [discriminate|].
    intros _. apply in_or_app. right. now left.
Qed.

Lemma diff_cols_only_with_rows_witness :
  valid_input ex_keys ex_old ex_old = true
  /\ exists out,
      main ex_keys ex_old ex_old = Ok out
      /\ (In "diff_cols" (columns (diferentes out)) <-> rows (diferentes out) <> [])
      /\ (rows (diferentes out) = [] ->
          columns (diferentes out)
          = ex_keys ++ suffixed "_v1" (cols_to_compare ex_keys ex_old)
                 ++ suffixed "_v2" (cols_to_compare ex_keys ex_old)).
Proof.
  split; [reflexivity|].
  exact (diff_cols_only_with_rows ex_keys ex_old ex_old eq_refl).
Defined.

Lemma flat_map_nil {A B : Type} (f : A -> list B) (l : list A) :
  (forall a, In a l -> f a = []) -> flat_map f l = [].
Proof.
  induction l as [|a l IH]; intros H; [reflexivity|]. simpl.
  rewrite (H a (or_introl eq_refl)). apply IH. intros x Hx. apply H. now right.
Qed.

(** Two frames without a key tuple in common (for one, an empty frame):
    nothing is identical, nothing differs, and each frame goes whole, with
    its keys as text and its rows in order, to its own one-sided frame. *)
Theorem no_common_key (keys : list string) (df_v1 df_v2 : DataFrame) :
  valid_input keys df_v1 df_v2 = true ->
  (forall r1 r2, In r1 (rows df_v1) -> In r2 (rows df_v2) ->
     key_text keys (columns df_v1) r1 <> key_text keys (columns df_v2) r2) ->
  exists out,
    main keys df_v1 df_v2 = Ok out
    /\ rows (identicas out) = []
    /\ rows (diferentes out) = []
    /\ rows (solo_v1 out) = map (astype_row keys (columns df_v1)) (rows df_v1)
    /\ rows (solo_v2 out) = map (astype_row keys (columns df_v2)) (rows df_v2).
Proof.
  intros Hv Hdis. exists (rowwise keys df_v1 df_v2).
  split; [now apply main_rows|].
  assert (Hno : forall r1 r2, In r1 (old_rows keys df_v1) -> In r2 (new_rows keys df_v2) ->
                  same_key keys df_v1 df_v2 r1 r2 = false).
  { intros r1 r2 H1 H2. rewrite same_key_texts by assumption.
    apply not_true_is_false. intros E. apply texts_eqb_eq in E.
    rewrite old_rows_raw in H1. rewrite new_rows_raw in H2.
    apply in_map_iff in H1, H2.
    destruct H1 as [x1 [<- I1]], H2 as [x2 [<- I2]].
    rewrite ka_raw, kb_raw in E. now apply (Hdis x1 x2). }
  assert (Hp : aligned_pairs keys df_v1 df_v2 = []).
  { unfold aligned_pairs. apply flat_map_nil. intros r1 H1.
    rewrite filter_none; [reflexivity|]. intros r2 H2. now apply Hno. }
  cbn [rowwise identicas diferentes solo_v1 solo_v2 rows].
  unfold identical_pairs, differing_pairs. rewrite Hp. cbn [filter map].
  split; [reflexivity|]. split; [reflexivity|]. split.
  - rewrite <- old_rows_raw. unfold only_old. apply filter_all.
    intros r1 H1. apply negb_true_iff. apply not_true_is_false. intros E.
    apply existsb_exists in E. destruct E as [r2 [H2 E]].
    rewrite Hno in E by assumption. discriminate.
  - rewrite <- new_rows_raw. unfold only_new. apply filter_all.
    intros r2 H2. apply negb_true_iff. apply not_true_is_false. intros E.
    apply existsb_exists in E. destruct E as [r1 [H1 E]].
    rewrite Hno in E by assumption. discriminate.
Qed.

Lemma no_common_key_witness :
  valid_input ["K"] with_k with_nan_key = true
  /\ (forall r1 r2, In r1 (rows with_k) -> In r2 (rows with_nan_key) ->
        key_text ["K"] (columns with_k) r1 <> key_text ["K"] (columns with_nan_key) r2)
  /\ exists out,
      main ["K"] with_k with_nan_key = Ok out
      /\ rows (identicas out) = []
      /\ rows (diferentes out) = []
      /\ rows (solo_v1 out) = map (astype_row ["K"] (columns with_k)) (rows with_k)
      /\ rows (solo_v2 out)
         = map (astype_row ["K"] (columns with_nan_key)) (rows with_nan_key).
Proof.
  assert (H : forall r1 r2, In r1 (rows with_k) -> In r2 (rows with_nan_key) ->
     key_text ["K"] (columns with_k) r1 <> key_text ["K"] (columns with_nan_key) r2).
  { intros r1 r2 [<-|[]] [<-|[]]. discriminate. }
  split; [reflexivity|]. split; [exact H|].
  exact (no_common_key ["K"] with_k with_nan_key eq_refl H).
Defined.

Lemma NoDup_suffixed (s : string) (l : list string) : NoDup l -> NoDup (suffixed s l).
Proof.
  intros H. unfold suffixed. apply NoDup_map_NoDup_ForallPairs; [|assumption].
  intros x y _ _ E. now apply suffix_inj in E.
Qed.

Lemma NoDup_differing_columns (keys : list string) (df_v1 df_v2 : DataFrame) :
  valid_input keys df_v1 df_v2 = true ->
  NoDup (differing_columns keys df_v1 df_v2).
Proof.
  intros Hv.
  destruct (valid_input_facts keys df_v1 df_v2 Hv)
    as (Hn1 & Hn2 & Hr1 & Hr2 & Hnk & Hk1 & Hk2 & Hset).
  destruct (valid_input_labels keys df_v1 df_v2 Hv) as (Hclash & Hdc & Hres).
  set (cmp := cols_to_compare keys df_v1).
  assert (Hnc : NoDup cmp) by (apply NoDup_filter; assumption).
  assert (H12 : NoDup (suffixed "_v1" cmp ++ suffixed "_v2" cmp)).
  { apply NoDup_app; try now apply NoDup_suffixed.
    intros x H1 H2. apply in_map_iff in H1, H2.
    destruct H1 as [a [<- _]], H2 as [b [E _]]. symmetry in E.
    now apply v1_not_v2 in E. }
  assert (Hk12 : forall k, In k keys ->
                           ~ In k (suffixed "_v1" cmp ++ suffixed "_v2" cmp)).
  { intros k Hk H. apply in_app_or in H.
    destruct H as [H|H]; apply in_map_iff in H; destruct H as [c [E Hc]];
      destruct (Hclash k c Hk Hc) as [A B]; congruence. }
  assert (Hd12 : ~ In "diff_cols" (suffixed "_v1" cmp ++ suffixed "_v2" cmp)).
  { intros H. apply in_app_or in H.
    destruct H as [H|H]; apply in_map_iff in H; destruct H as [c [E _]];
      apply diff_cols_not_suffixed in E; auto. }
  unfold differing_columns. fold cmp.
  destruct (differing_pairs keys df_v1 df_v2).
  - apply NoDup_app; assumption.
  - apply NoDup_app; [assumption | now constructor |].
    intros k Hk [<-|H]; [contradiction | now apply (Hk12 k)].
Qed.

(** On valid input the four frames are well formed: no label occurs twice
    in a header, and every row has one cell per label. *)
Theorem outputs_well_formed (keys : list string) (df_v1 df_v2 : DataFrame) :
  valid_input keys df_v1 df_v2 = true ->
  exists out,
    main keys df_v1 df_v2 = Ok out
    /\ wf_frame (identicas out) = true
    /\ wf_frame (diferentes out) = true
    /\ wf_frame (solo_v2 out) = true
    /\ wf_frame (solo_v1 out) = true.
Proof.
  intros Hv. exists (rowwise keys df_v1 df_v2).
  split; [now apply main_rows|].
  destruct (valid_input_facts keys df_v1 df_v2 Hv)
    as (Hn1 & Hn2 & Hr1 & Hr2 & Hnk & Hk1 & Hk2 & Hset).
  destruct (valid_input_labels keys df_v1 df_v2 Hv) as (Hclash & Hdc & Hres).
  pose proof (length_keys_cmp keys df_v1 Hn1 Hnk Hk1) as Hlen.
  assert (Hold : forall p, In p (aligned_pairs keys df_v1 df_v2) ->
            length (old_key keys df_v1 (fst p)) = length keys
            /\ length (old_side keys df_v1 p) = length (cols_to_compare keys df_v1)
            /\ length (new_side keys df_v1 df_v2 p)
               = length (cols_to_compare keys df_v1)).
  { intros p Hp.
    destruct (pair_rows_length keys df_v1 df_v2 Hr1 Hr2 p Hp) as [L1 L2].
    repeat split; apply length_select_row; auto.
    - now apply incl_cmp_1.
    - now apply incl_cmp_2. }
  unfold wf_frame, rowwise.
  cbn [identicas diferentes solo_v1 solo_v2 rows columns].
  repeat split; apply andb_true_iff; split;
    try (apply nodupb_NoDup; assumption);
    try (apply forallb_forall; intros r Hr; apply Nat.eqb_eq).
  - apply in_map_iff in Hr. destruct Hr as [p [<- Hp]].
    apply filter_In in Hp. destruct Hp as [Hp _].
    destruct (Hold p Hp) as (A & B & _).
    unfold identical_row. rewrite length_app. lia.
  - apply nodupb_NoDup. now apply NoDup_differing_columns.
  - apply in_map_iff in Hr. destruct Hr as [p [<- Hp]].
    assert (Hne : differing_pairs keys df_v1 df_v2 <> [])
      by (intros E; rewrite E in Hp; destruct Hp).
    apply filter_In in Hp. destruct Hp as [Hp _].
    destruct (Hold p Hp) as (A & B & C).
    unfold differing_row, differing_columns.
    destruct (differing_pairs keys df_v1 df_v2); [congruence|].
    cbn [length]. rewrite !length_app. cbn [length].
    rewrite !length_app, !length_suffixed. lia.
  - apply filter_In in Hr. destruct Hr as [Hr _].
    pose proof (rows_astype_keys_length keys df_v2 Hr2) as F.
    rewrite Forall_forall in F. now apply F.
  - apply filter_In in Hr. destruct Hr as [Hr _].
    now apply (la_length keys df_v1 Hr1).
Qed.

Lemma outputs_well_formed_witness :
  valid_input ex_keys ex_old ex_new = true
  /\ exists out,
      main ex_keys ex_old ex_new = Ok out
      /\ wf_frame (identicas out) = true
      /\ wf_frame (diferentes out) = true
      /\ wf_frame (solo_v2 out) = true
      /\ wf_frame (solo_v1 out) = true.
Proof.
  split; [reflexivity|].
  exact (outputs_well_formed ex_keys ex_old ex_new eq_refl).
Defined.

(** ** The one-sided frames *)

Lemma existsb_map {A B : Type} (f : B -> bool) (g : A -> B) (l : list A) :
  existsb f (map g l) = existsb (fun a => f (g a)) l.
Proof. induction l as [|a l IH]; [reflexivity|]. simpl. now rewrite IH. Qed.

Lemma existsb_ext_in {A : Type} (f g : A -> bool) (l : list A) :
  (forall a, In a l -> f a = g a) -> existsb f l = existsb g l.
Proof.
  induction l as [|a l IH]; intros H; [reflexivity|]. simpl.
  rewrite (H a (or_introl eq_refl)), IH; [reflexivity|].
  intros x Hx. apply H. now right.
Qed.

Lemma same_key_raw (keys : list string) (df_v1 df_v2 : DataFrame)
  (r1 r2 : list scalar) :
  In r1 (rows df_v1) -> In r2 (rows df_v2) ->
  same_key keys df_v1 df_v2 (astype_row keys (columns df_v1) r1)
                            (astype_row keys (columns df_v2) r2)
  = texts_eqb (key_text keys (columns df_v1) r1) (key_text keys (columns df_v2) r2).
Proof.
  intros H1 H2. rewrite same_key_texts.
  - now rewrite ka_raw, kb_raw.
  - rewrite old_rows_raw. now apply in_map.
  - rewrite new_rows_raw. now apply in_map.
Qed.

Lemma only_old_raw (keys : list string) (df_v1 df_v2 : DataFrame) :
  only_old keys df_v1 df_v2
  = map (astype_row keys (columns df_v1))
        (filter (fun r1 =>
           negb (existsb (fun r2 =>
                   texts_eqb (key_text keys (columns df_v1) r1)
                             (key_text keys (columns df_v2) r2))
                 (rows df_v2)))
           (rows df_v1)).
Proof.
  unfold only_old. rewrite old_rows_raw, new_rows_raw, filter_map_swap.
  f_equal. apply filter_ext_in. intros r1 H1. f_equal.
  rewrite existsb_map. apply existsb_ext_in. intros r2 H2.
  now apply same_key_raw.
Qed.

Lemma only_new_raw (keys : list string) (df_v1 df_v2 : DataFrame) :
  only_new keys df_v1 df_v2
  = map (astype_row keys (columns df_v2))
        (filter (fun r2 =>
           negb (existsb (fun r1 =>
                   texts_eqb (key_text keys (columns df_v1) r1)
                             (key_text keys (columns df_v2) r2))
                 (rows df_v1)))
           (rows df_v2)).
Proof.
  unfold only_new. rewrite old_rows_raw, new_rows_raw, filter_map_swap.
  f_equal. apply filter_ext_in. intros r2 H2. f_equal.
  rewrite existsb_map. apply existsb_ext_in. intros r1 H1.
  now apply same_key_raw.
Qed.

(** On valid input [solo_v1] holds exactly the old rows whose key tuple, as
    text, no new row has, in the order of the old frame and with their keys
    turned into text; [solo_v2] likewise for the new frame. *)
Theorem one_sided_rows (keys : list string) (df_v1 df_v2 : DataFrame) :
  valid_input keys df_v1 df_v2 = true ->
  exists out,
    main keys df_v1 df_v2 = Ok out
    /\ solo_v1 out
       = mkDF (columns df_v1)
           (map (astype_row keys (columns df_v1))
              (filter (fun r1 =>
                 negb (existsb (fun r2 =>
                         texts_eqb (key_text keys (columns df_v1) r1)
                                   (key_text keys (columns df_v2) r2))
                       (rows df_v2)))
                 (rows df_v1)))
    /\ solo_v2 out
       = mkDF (columns df_v2)
           (map (astype_row keys (columns df_v2))
              (filter (fun r2 =>
                 negb (existsb (fun r1 =>
                         texts_eqb (key_text keys (columns df_v1) r1)
                                   (key_text keys (columns df_v2) r2))
                       (rows df_v1)))
                 (rows df_v2))).
Proof.
  intros Hv. exists (rowwise keys df_v1 df_v2).
  split; [now apply main_rows|].
  cbn [rowwise solo_v1 solo_v2].
  split; f_equal; [apply only_old_raw | apply only_new_raw].
Qed.

Lemma one_sided_rows_witness :
  valid_input ex_keys ex_old ex_new = true
  /\ exists out,
    main ex_keys ex_old ex_new = Ok out
    /\ solo_v1 out
       = mkDF (columns ex_old)
           (map (astype_row ex_keys (columns ex_old))
              (filter (fun r1 =>
                 negb (existsb (fun r2 =>
                         texts_eqb (key_text ex_keys (columns ex_old) r1)
                                   (key_text ex_keys (columns ex_new) r2))
                       (rows ex_new)))
                 (rows ex_old)))
    /\ solo_v2 out
       = mkDF (columns ex_new)
           (map (astype_row ex_keys (columns ex_new))
              (filter (fun r2 =>
                 negb (existsb (fun r1 =>
                         texts_eqb (key_text ex_keys (columns ex_old) r1)
                                   (key_text ex_keys (columns ex_new) r2))
                       (rows ex_old)))
                 (rows ex_new))).
Proof.
  split; [reflexivity|].
  exact (one_sided_rows ex_keys ex_old ex_new eq_refl).
Defined.

(** ** The conversion of the key columns *)

(** The loop over the keys keeps the labels and the number of rows; in
    every row it replaces the cells under the key columns by the text
    [str] prints for them and leaves the cells under all other labels as
    they are. *)
Theorem astype_keys_effect (keys : list string) (df : DataFrame) :
  columns (astype_keys keys df) = columns df
  /\ len (astype_keys keys df) = len df
  /\ rows (astype_keys keys df) = map (astype_row keys (columns df)) (rows df)
  /\ (forall row,
        select_row keys (columns df) (astype_row keys (columns df) row)
        = map SStr (key_text keys (columns df) row))
  /\ (forall row names,
        (forall c, In c names -> ~ In c keys) ->
        select_row names (columns df) (astype_row keys (columns df) row)
        = select_row names (columns df) row).
Proof.
  split; [apply columns_astype_keys|].
  split; [apply length_rows_astype_keys|].
  split; [apply rows_astype_keys|]. split.
  - intros row. rewrite select_keys_astype_row. unfold key_text.
    now rewrite map_map.
  - intros row names H. now apply select_other_astype_row.
Qed.

Lemma combine_map_combine {A B C : Type} (h : A * B -> C) (l : list A) (r : list B) :
  combine l (map h (combine l r)) = map (fun p => (fst p, h p)) (combine l r).
Proof.
  revert r. induction l as [|a l IH]; intros [|b r]; simpl; try reflexivity.
  now rewrite IH.
Qed.

(** The loop over the keys in one pass: a cell under a key label becomes
    its text, every other cell stays. *)
Lemma astype_row_closed (keys cols : list string) (row : list scalar) :
  keys <> [] ->
  astype_row keys cols row
  = map (fun p => if mem (fst p) keys then SStr (py_str (snd p)) else snd p)
        (combine cols row).
Proof.
  revert row. induction keys as [|k keys IH]; intros row Hne; [congruence|].
  destruct keys as [|k' keys].
  - unfold astype_row, astype_str_row. simpl. apply map_ext. intros [c v]. simpl.
    now rewrite orb_false_r.
  - change (astype_row (k :: k' :: keys) cols row)
      with (astype_row (k' :: keys) cols (astype_str_row k cols row)).
    rewrite IH by discriminate. unfold astype_str_row.
    rewrite combine_map_combine, map_map. apply map_ext. intros [c v].
    cbn [fst snd]. unfold mem. cbn [existsb].
    destruct (String.eqb c k); cbn [orb]; [|reflexivity].
    now destruct (String.eqb c k' || existsb (String.eqb c) keys).
Qed.

Lemma astype_row_idem (keys cols : list string) (row : list scalar) :
  astype_row keys cols (astype_row keys cols row) = astype_row keys cols row.
Proof.
  destruct keys as [|k keys]; [reflexivity|].
  rewrite !astype_row_closed by discriminate.
  rewrite combine_map_combine, map_map. apply map_ext. intros [c v].
  cbn [fst snd]. now destruct (mem c (k :: keys)).
Qed.

Lemma frame_eq (a b : DataFrame) :
  columns a = columns b -> rows a = rows b -> a = b.
Proof. destruct a, b. simpl. now intros -> ->. Qed.

Lemma astype_keys_idem (keys : list string) (df : DataFrame) :
  astype_keys keys (astype_keys keys df) = astype_keys keys df.
Proof.
  apply frame_eq; [now rewrite !columns_astype_keys|].
  rewrite rows_astype_keys, columns_astype_keys, rows_astype_keys, map_map.
  apply map_ext. intros row. apply astype_row_idem.
Qed.

Lemma check_keys_columns (keys : list string) (a b a' b' : DataFrame) :
  columns a = columns a' -> columns b = columns b' ->
  check_keys keys a b = check_keys keys a' b'.
Proof.
  intros E1 E2. induction keys as [|k keys IH]; [reflexivity|]. simpl.
  now rewrite E1, E2, IH.
Qed.

(** Turning the key columns into text twice is turning them once, and the
    run on two frames whose keys were already turned into text is the run
    on the frames as they were. *)
Theorem keys_as_text_once (keys : list string) (df_v1 df_v2 : DataFrame) :
  astype_keys keys (astype_keys keys df_v1) = astype_keys keys df_v1
  /\ main keys (astype_keys keys df_v1) (astype_keys keys df_v2)
     = main keys df_v1 df_v2.
Proof.
  split; [apply astype_keys_idem|].
  unfold main. rewrite !astype_keys_idem.
  rewrite (check_keys_columns keys _ _ df_v1 df_v2)
    by apply columns_astype_keys.
  unfold validate_columns. rewrite !columns_astype_keys. reflexivity.
Qed.

(** ** Reading the differing columns back *)






(** ** The two frames exchanged *)

Lemma length_join {A B : Type} (R : A -> B -> bool) (la : list A) (lb : list B) :
  length (flat_map (fun a => map (pair a) (filter (R a) lb)) la)
  = length (flat_map (fun b => map (pair b) (filter (fun a => R a b) la)) lb).
Proof.
  pose proof (count_pairs_swap R lb (fun _ => true) la) as H.
  now rewrite !filter_true in H.
Qed.

Lemma same_key_exchange (keys : list string) (a b : DataFrame)
  (r1 r2 : list scalar) :
  same_key keys b a r2 r1 = same_key keys a b r1 r2.
Proof. unfold same_key, old_key, new_key. apply tuple_eqb_sym. Qed.

(** The join has as many pairs whichever frame comes first. *)
Lemma length_aligned_exchange (keys : list string) (a b : DataFrame) :
  length (aligned_pairs keys b a) = length (aligned_pairs keys a b).
Proof.
  unfold aligned_pairs. rewrite (length_join (same_key keys a b)).
  change (new_rows keys b) with (old_rows keys b).
  change (old_rows keys a) with (new_rows keys a).
  f_equal. apply flat_map_ext. intros r2. f_equal.
  apply filter_ext. intros r1. apply same_key_exchange.
Qed.

(** The identical and the differing rows are the pairs of the join. *)
Lemma length_aligned_split (keys : list string) (a b : DataFrame) :
  length (identical_pairs keys a b) + length (differing_pairs keys a b)
  = length (aligned_pairs keys a b).
Proof.
  unfold identical_pairs, differing_pairs.
  generalize (aligned_pairs keys a b). intros l.
  induction l as [|p l IH]; [reflexivity|]. simpl.
  destruct (pair_equal keys a b p); simpl; lia.
Qed.

(** Exchanging the two frames exchanges the two one-sided frames and keeps
    the number of rows both frames have a key tuple for: [identicas] and
    [diferentes] hold together as many rows as before.  (How these rows
    divide between the two frames is not stated: the comparison takes the
    cells of the second frame as one array.) *)
Theorem frames_exchanged (keys : list string) (a b : DataFrame) :
  valid_input keys a b = true ->
  valid_input keys b a = true ->
  exists out out',
    main keys a b = Ok out
    /\ main keys b a = Ok out'
    /\ solo_v1 out' = solo_v2 out
    /\ solo_v2 out' = solo_v1 out
    /\ len (identicas out') + len (diferentes out')
       = len (identicas out) + len (diferentes out).
Proof.
  intros Hab Hba. exists (rowwise keys a b), (rowwise keys b a).
  split; [now apply main_rows|]. split; [now apply main_rows|].
  cbn [rowwise solo_v1 solo_v2 identicas diferentes]. unfold len. cbn [rows].
  rewrite !length_map.
  assert (Hsolo : forall x y : DataFrame,
            only_old keys x y = only_new keys y x).
  { intros x y. rewrite only_old_raw, only_new_raw. f_equal.
    apply filter_ext. intros r1. f_equal.
    apply existsb_ext_in. intros r2 _. apply texts_eqb_sym. }
  split; [now rewrite Hsolo|]. split; [now rewrite Hsolo|].
  rewrite !length_aligned_split. apply length_aligned_exchange.
Qed.

Lemma frames_exchanged_witness :
  valid_input ex_keys ex_old ex_new = true
  /\ valid_input ex_keys ex_new ex_old = true
  /\ exists out out',
      main ex_keys ex_old ex_new = Ok out
      /\ main ex_keys ex_new ex_old = Ok out'
      /\ solo_v1 out' = solo_v2 out
      /\ solo_v2 out' = solo_v1 out
      /\ len (identicas out') + len (diferentes out')
         = len (identicas out) + len (diferentes out).
Proof.
  split; [reflexivity|]. split; [reflexivity|].
  exact (frames_exchanged ex_keys ex_old ex_new eq_refl eq_refl).
Defined.

(** ** The columns of the new frame in another order *)

Lemma combine_map_self {A B : Type} (f : A -> B) (l : list A) :
  combine l (map f l) = map (fun c => (c, f c)) l.
Proof. induction l as [|a l IH]; [reflexivity|]. simpl. now rewrite IH. Qed.

Lemma cells_at_map_self (f : string -> scalar) (names : list string) (c : string) :
  NoDup names -> In c names -> cells_at c names (map f names) = [f c].
Proof.
  intros Hn. induction Hn as [|x names Hx Hn IH]; intros Hc; [destruct Hc|].
  simpl map. rewrite cells_at_cons. destruct (String.eqb_spec x c) as [->|Hne].
  - f_equal. apply cells_at_none. intros y Hy. apply String.eqb_neq.
    intros ->. contradiction.
  - destruct Hc as [Hc|Hc]; [contradiction | now apply IH].
Qed.

Section Reorder.
Variable keys : list string.
Variables a b : DataFrame.
Variable names : list string.

Hypothesis Hab : valid_input keys a b = true.
Hypothesis Hab' : valid_input keys a (reorder names b) = true.

Let rho := select_row names (columns b).
Let phi := fun p : list scalar * list scalar => (fst p, rho (snd p)).

Lemma names_facts :
  NoDup names /\ incl names (columns b) /\ NoDup (columns b)
  /\ incl keys names /\ incl (cols_to_compare keys a) names
  /\ Forall (fun r => length r = length (columns b)) (rows b).
Proof.
  destruct (valid_input_facts keys a b Hab)
    as (Hn1 & Hn2 & Hr1 & Hr2 & Hnk & Hk1 & Hk2 & Hset).
  destruct (valid_input_facts keys a (reorder names b) Hab')
    as (_ & Hn2' & _ & _ & _ & _ & Hk2' & Hset').
  cbn [reorder columns] in *. repeat split; try assumption.
  - intros c Hc. apply Hset. now apply Hset'.
  - intros c Hc. apply Hset'. apply filter_In in Hc. tauto.
Qed.

(** Selecting from the reordered row is selecting from the row. *)
Lemma select_reordered (sel : list string) (r : list scalar) :
  incl sel names -> length r = length (columns b) ->
  select_row sel names (rho r) = select_row sel (columns b) r.
Proof.
  intros Hs Hl.
  destruct names_facts as (Hnn & Hin & Hnb & _ & _ & _).
  unfold rho. rewrite (select_row_cells names (columns b) r) by assumption.
  rewrite (select_row_cells sel (columns b) r);
    [|assumption | intros c Hc; apply Hin; now apply Hs | assumption].
  induction sel as [|c sel IH]; [reflexivity|].
  unfold select_row in *. simpl.
  rewrite cells_at_map_self by (auto; apply Hs; now left).
  simpl. f_equal. apply IH. intros x Hx. apply Hs. now right.
Qed.

Lemma astype_reordered (r : list scalar) :
  length r = length (columns b) ->
  astype_row keys names (rho r) = rho (astype_row keys (columns b) r).
Proof.
  intros Hl.
  destruct names_facts as (Hnn & Hin & Hnb & _ & _ & _).
  destruct keys as [|k ks] eqn:Ek; [reflexivity|]. rewrite <- Ek.
  assert (Hne : keys <> []) by (rewrite Ek; discriminate).
  unfold rho.
  rewrite (select_row_cells names (columns b) r) by assumption.
  rewrite (select_row_cells names (columns b))
    by (try assumption; now apply length_astype_row).
  rewrite astype_row_closed by assumption.
  rewrite combine_map_self, map_map. apply map_ext_in. intros c Hc.
  cbn [fst snd]. unfold cell. rewrite cells_at_astype_row.
  destruct (cells_at_single c (columns b) r Hnb (Hin c Hc) Hl) as [v ->].
  now destruct (mem c keys).
Qed.

Lemma new_rows_reordered :
  new_rows keys (reorder names b) = map rho (new_rows keys b).
Proof.
  destruct names_facts as (_ & _ & _ & _ & _ & Hrb).
  rewrite !new_rows_raw. cbn [reorder columns rows]. rewrite !map_map.
  apply map_ext_in. intros r Hr. apply astype_reordered.
  rewrite Forall_forall in Hrb. now apply Hrb.
Qed.

Lemma new_row_length_b (r2 : list scalar) :
  In r2 (new_rows keys b) -> length r2 = length (columns b).
Proof.
  destruct names_facts as (_ & _ & _ & _ & _ & Hrb). intros H.
  pose proof (rows_astype_keys_length keys b Hrb) as F.
  rewrite Forall_forall in F. now apply F.
Qed.

Lemma same_key_reordered (r1 r2 : list scalar) :
  In r2 (new_rows keys b) ->
  same_key keys a (reorder names b) r1 (rho r2) = same_key keys a b r1 r2.
Proof.
  intros H2. destruct names_facts as (_ & _ & _ & Hkn & _ & _).
  unfold same_key, new_key. cbn [reorder columns].
  now rewrite select_reordered by (auto using new_row_length_b).
Qed.

Lemma aligned_reordered :
  aligned_pairs keys a (reorder names b) = map phi (aligned_pairs keys a b).
Proof.
  unfold aligned_pairs. rewrite new_rows_reordered.
  change (old_rows keys a) with (old_rows keys a).
  generalize (old_rows keys a). induction l as [|r1 l IH]; [reflexivity|].
  cbn [flat_map]. rewrite map_app, IH. f_equal.
  rewrite filter_map_swap, !map_map.
  rewrite (filter_ext_in _ (same_key keys a b r1))
    by (intros r2 H2; now apply same_key_reordered).
  reflexivity.
Qed.

Lemma new_side_reordered (p : list scalar * list scalar) :
  In p (aligned_pairs keys a b) ->
  new_side keys a (reorder names b) (phi p) = new_side keys a b p.
Proof.
  intros Hp. destruct names_facts as (_ & _ & _ & _ & Hcn & _).
  unfold new_side, phi. cbn [reorder columns snd].
  apply select_reordered; [assumption|]. apply new_row_length_b.
  now apply pairs_members in Hp.
Qed.

Lemma pair_equal_reordered (p : list scalar * list scalar) :
  In p (aligned_pairs keys a b) ->
  pair_equal keys a (reorder names b) (phi p) = pair_equal keys a b p.
Proof.
  intros Hp. unfold pair_equal. now rewrite new_side_reordered.
Qed.

Lemma differing_row_reordered (p : list scalar * list scalar) :
  In p (aligned_pairs keys a b) ->
  differing_row keys a (reorder names b) (phi p) = differing_row keys a b p.
Proof.
  intros Hp. unfold differing_row, pair_diff.
  now rewrite new_side_reordered.
Qed.

Lemma filter_pairs_reordered (E : bool -> bool) :
  filter (fun p => E (pair_equal keys a (reorder names b) p))
         (aligned_pairs keys a (reorder names b))
  = map phi (filter (fun p => E (pair_equal keys a b p)) (aligned_pairs keys a b)).
Proof.
  rewrite aligned_reordered, filter_map_swap. f_equal.
  apply filter_ext_in. intros p Hp. now rewrite pair_equal_reordered.
Qed.

Lemma rowwise_reordered :
  rowwise keys a (reorder names b)
  = mkSalidas (identicas (rowwise keys a b))
              (diferentes (rowwise keys a b))
              (reorder names (solo_v2 (rowwise keys a b)))
              (solo_v1 (rowwise keys a b)).
Proof.
  unfold rowwise. cbn [identicas diferentes solo_v1 solo_v2].
  assert (Ei : identical_pairs keys a (reorder names b)
               = map phi (identical_pairs keys a b))
    by apply (filter_pairs_reordered (fun x => x)).
  assert (Ed : differing_pairs keys a (reorder names b)
               = map phi (differing_pairs keys a b))
    by apply (filter_pairs_reordered negb).
  f_equal.
  - f_equal. rewrite Ei, map_map. reflexivity.
  - unfold differing_columns. rewrite Ed. f_equal.
    + now destruct (differing_pairs keys a b).
    + rewrite map_map. apply map_ext_in. intros p Hp.
      apply differing_row_reordered. apply filter_In in Hp. tauto.
  - change (mkDF names (only_new keys a (reorder names b))
            = mkDF names (map rho (only_new keys a b))).
    f_equal. unfold only_new. rewrite new_rows_reordered, filter_map_swap. f_equal.
    apply filter_ext_in. intros r2 H2. f_equal.
    apply existsb_ext_in. intros r1 _. now apply same_key_reordered.
  - f_equal. unfold only_old. apply filter_ext. intros r1. f_equal.
    rewrite new_rows_reordered, existsb_map.
    apply existsb_ext_in. intros r2 H2. now apply same_key_reordered.
Qed.
End Reorder.

(** The order of the columns of the new frame does not matter: with the
    columns of the new frame put in another order, as [df_v2[names]] does,
    the run gives the same [identicas], [diferentes] and [solo_v1], and
    the same [solo_v2] with its columns in that order. *)
Theorem new_columns_in_any_order (keys names : list string) (a b : DataFrame) :
  valid_input keys a b = true ->
  valid_input keys a (reorder names b) = true ->
  getitem names b = Ok (reorder names b)
  /\ exists out,
      main keys a b = Ok out
      /\ main keys a (reorder names b)
         = Ok (mkSalidas (identicas out) (diferentes out)
                         (reorder names (solo_v2 out)) (solo_v1 out)).
Proof.
  intros Hab Hab'. split.
  - destruct (names_facts keys a b names Hab Hab') as (_ & Hin & Hnb & _).
    now apply getitem_ok.
  - exists (rowwise keys a b).
    split; [now apply main_rows|].
    rewrite main_rows by assumption. f_equal.
    now apply rowwise_reordered.
Qed.

Lemma new_columns_in_any_order_witness :
  valid_input ex_keys ex_old ex_new = true
  /\ valid_input ex_keys ex_old
                 (reorder ["Qty"; "ItemNo"; "LocationCode"] ex_new) = true
  /\ getitem ["Qty"; "ItemNo"; "LocationCode"] ex_new
     = Ok (reorder ["Qty"; "ItemNo"; "LocationCode"] ex_new)
  /\ exists out,
      main ex_keys ex_old ex_new = Ok out
      /\ main ex_keys ex_old (reorder ["Qty"; "ItemNo"; "LocationCode"] ex_new)
         = Ok (mkSalidas (identicas out) (diferentes out)
                         (reorder ["Qty"; "ItemNo"; "LocationCode"] (solo_v2 out))
                         (solo_v1 out)).
Proof.
  split; [reflexivity|]. split; [reflexivity|].
  exact (new_columns_in_any_order ex_keys ["Qty"; "ItemNo"; "LocationCode"]
           ex_old ex_new eq_refl eq_refl).
Defined.

(** ** Every column a key *)

(** When every column is a key there is nothing to compare: no pair of
    rows differs, [diferentes] has the keys as its columns and no row, and
    [identicas] holds, for each old row in turn, its key tuple as text once
    per new row with the same key tuple. *)
Theorem every_column_a_key (keys : list string) (df_v1 df_v2 : DataFrame) :
  valid_input keys df_v1 df_v2 = true ->
  incl (columns df_v1) keys ->
  exists out,
    main keys df_v1 df_v2 = Ok out
    /\ columns (diferentes out) = keys
    /\ rows (diferentes out) = []
    /\ rows (identicas out)
       = flat_map (fun r1 =>
           map (fun _ => map SStr (key_text keys (columns df_v1) r1))
               (filter (fun r2 =>
                  texts_eqb (key_text keys (columns df_v1) r1)
                            (key_text keys (columns df_v2) r2))
                  (rows df_v2)))
           (rows df_v1).
Proof.
  intros Hv Hall. exists (rowwise keys df_v1 df_v2).
  split; [now apply main_rows|].
  destruct (valid_input_facts keys df_v1 df_v2 Hv)
    as (Hn1 & Hn2 & Hr1 & Hr2 & Hnk & Hk1 & Hk2 & Hset).
  assert (Hcmp : cols_to_compare keys df_v1 = []).
  { unfold cols_to_compare. apply filter_none. intros c Hc.
    apply negb_false_iff. apply mem_In. now apply Hall. }
  assert (Heq : forall p, pair_equal keys df_v1 df_v2 p = true).
  { intros p. unfold pair_equal, old_side, new_side. now rewrite Hcmp. }
  assert (Hd : differing_pairs keys df_v1 df_v2 = []).
  { unfold differing_pairs. apply filter_none. intros p _. now rewrite Heq. }
  cbn [rowwise identicas diferentes rows columns].
  unfold differing_columns. rewrite Hd, Hcmp. cbn [suffixed map app].
  split; [apply app_nil_r|]. split; [reflexivity|].
  unfold identical_pairs. rewrite filter_all by (intros p _; apply Heq).
  unfold aligned_pairs.
  rewrite map_flat_map, (old_rows_raw keys df_v1), (new_rows_raw keys df_v2).
  apply flat_map_map_in. intros r1 H1.
  rewrite filter_map_swap, !map_map.
  rewrite (filter_ext_in _ (fun r2 =>
             texts_eqb (key_text keys (columns df_v1) r1)
                       (key_text keys (columns df_v2) r2)))
    by (intros r2 H2; now apply same_key_raw).
  apply map_ext. intros r2.
  unfold identical_row, old_side. cbn [fst]. rewrite Hcmp.
  cbn [select_row flat_map]. rewrite app_nil_r.
  rewrite old_key_texts by (try assumption; rewrite old_rows_raw; now apply in_map).
  now rewrite ka_raw.
Qed.

Lemma every_column_a_key_witness :
  valid_input ["K"] (mkDF ["K"] [[SInt 1]; [SInt 2]]) (mkDF ["K"] [[SInt 2]; [SInt 3]])
  = true
  /\ incl (columns (mkDF ["K"] [[SInt 1]; [SInt 2]])) ["K"]
  /\ exists out,
      main ["K"] (mkDF ["K"] [[SInt 1]; [SInt 2]]) (mkDF ["K"] [[SInt 2]; [SInt 3]])
      = Ok out
      /\ columns (diferentes out) = ["K"]
      /\ rows (diferentes out) = []
      /\ rows (identicas out)
         = flat_map (fun r1 =>
             map (fun _ => map SStr (key_text ["K"] ["K"] r1))
                 (filter (fun r2 =>
                    texts_eqb (key_text ["K"] ["K"] r1) (key_text ["K"] ["K"] r2))
                    [[SInt 2]; [SInt 3]]))
             [[SInt 1]; [SInt 2]].
Proof.
  split; [reflexivity|]. split; [intros x H; exact H|].
  exact (every_column_a_key ["K"] (mkDF ["K"] [[SInt 1]; [SInt 2]])
           (mkDF ["K"] [[SInt 2]; [SInt 3]]) eq_refl (fun x H => H)).
Defined.
